(** * express-jobly: the job model, its filtered listing and partial update

    A shallow embedding of [models/job.js] and of the [GET /jobs] handler of
    [routes/jobs.js], together with the JavaScript notions they rely on
    (truthiness, [isNaN], template literals, object key order) and a model
    of the [jobs] table the queries run against.

    JavaScript objects are association lists in [Object.keys] order, strings
    are byte strings (UTF-8), and the numbers of the embedding are the
    integer-valued ones, [NaN] and the two infinities; an integer that is
    not a double stands for the double nearest to it. *)

From Stdlib Require Import ZArith List Bool Ascii String Lia DecimalString DecimalNat.
From Stdlib Require Import Sorting.Sorted Permutation.
Import ListNotations.
Open Scope string_scope.

(** ** JavaScript values *)

Module JS.

Inductive number :=
| NaN
| Infinity (negative : bool)
| Finite (z : Z).

Inductive value :=
| undefined
| null
| Bool (b : bool)
| Num (n : number)
| Str (s : string).

(** An object literal: its own enumerable string keys, in the order
    [Object.keys] lists them. *)
Definition object := list (string * value).

Definition keys (o : object) : list string := map fst o.

Definition values (o : object) : list value := map snd o.

(** Property read [o[k]]: [undefined] when the key is missing. *)
Fixpoint get (o : object) (k : string) : value :=
  match o with
  | [] => undefined
  | (k', v) :: o' => if String.eqb k' k then v else get o' k
  end.

(** ToBoolean. *)
Definition truthy (v : value) : bool :=
  match v with
  | undefined | null => false
  | Bool b => b
  | Num NaN => false
  | Num (Infinity _) => true
  | Num (Finite z) => negb (z =? 0)%Z
  | Str s => negb (String.eqb s "")
  end.

Definition string_of_Z (z : Z) : string :=
  NilEmpty.string_of_int (Z.to_int z).

(** *** Number::toString

    A Number is a double.  Up to 2^53 every integer is one and prints as
    its digits; beyond, [Finite z] is the double nearest to [z] (ties to
    even, infinite from 2^1024 - 2^970 on), and it prints as the shortest
    decimal that reads back as that double: in full up to 21 digits, with
    an exponent beyond. *)

Definition two_53 : Z := 9007199254740992.

(** The double nearest to [n >= 2^53]: 53 leading bits kept, the rest
    rounded. *)
Definition nearest_double (n : Z) : Z :=
  let e := (Z.log2 n - 52)%Z in
  let m := Z.shiftr n e in
  let r := (n - Z.shiftl m e)%Z in
  let half := Z.shiftl 1 (e - 1) in
  let up := ((half <? r) || ((r =? half) && Z.odd m))%Z in
  Z.shiftl (if up then m + 1 else m)%Z e.

Definition overflows (x : Z) : bool := (2 ^ 1024 <=? x)%Z.

(** Does [c] read back as the double [x >= 2^53]?  It does when it is
    nearer to [x] than to the doubles next to it; half way, when the
    significand of [x] is even.  (Compared four times over, to stay among
    the integers.) *)
Definition reads_back_as (x c : Z) : bool :=
  let e := (Z.log2 x - 52)%Z in
  let m := Z.shiftr x e in
  let above := Z.shiftl 1 (e + 1) in
  let below := if (m =? 2 ^ 52)%Z then Z.shiftl 1 e else above in
  if Z.even m
  then ((4 * x - below <=? 4 * c) && (4 * c <=? 4 * x + above))%Z
  else ((4 * x - below <? 4 * c) && (4 * c <? 4 * x + above))%Z.

(** The digits [s] and the number [q] of zeros after them of the shortest
    decimal that reads back as [x], the nearest to [x] of them: the
    greatest [q <= fuel] for which a multiple of 10^q reads back as [x]. *)
Fixpoint shortest (fuel : nat) (x : Z) : Z * nat :=
  match fuel with
  | O => (x, O)
  | S fuel' =>
    let p := (10 ^ Z.of_nat fuel)%Z in
    let s1 := (x / p)%Z in
    let s2 := (s1 + 1)%Z in
    let d1 := (x - s1 * p)%Z in
    let d2 := (s2 * p - x)%Z in
    match reads_back_as x (s1 * p), reads_back_as x (s2 * p) with
    | true, true =>
      if (d1 <? d2)%Z then (s1, fuel)
      else if (d2 <? d1)%Z then (s2, fuel)
      else if Z.even s1 then (s1, fuel) else (s2, fuel)
    | true, false => (s1, fuel)
    | false, true => (s2, fuel)
    | false, false => shortest fuel' x
    end
  end.

Fixpoint zeros (n : nat) : string :=
  match n with
  | O => ""
  | S n' => String "0" (zeros n')
  end.

Definition nat_to_string (n : nat) : string := string_of_Z (Z.of_nat n).

(** The digits [s] followed by [q] zeros, the way ToString lays them out. *)
Definition layout (s : Z) (q : nat) : string :=
  let digits := string_of_Z s in
  let n := (String.length digits + q)%nat in
  if (n <=? 21)%nat then digits ++ zeros q
  else
    match digits with
    | String d EmptyString => String d ("e+" ++ nat_to_string (n - 1))
    | String d rest => String d ("." ++ rest ++ "e+" ++ nat_to_string (n - 1))
    | EmptyString => ""
    end.

(** ToString of the Number an integer [n >= 0] denotes. *)
Definition digits_of (n : Z) : string :=
  if (n <? two_53)%Z then string_of_Z n
  else
    let x := nearest_double n in
    if overflows x then "Infinity"
    else let (s, q) := shortest (String.length (string_of_Z x)) x in layout s q.

Definition Number_toString (z : Z) : string :=
  if (z <? 0)%Z then "-" ++ digits_of (- z) else digits_of z.

(** ToString, as a template literal [`${v}`] applies it. *)
Definition ToString (v : value) : string :=
  match v with
  | undefined => "undefined"
  | null => "null"
  | Bool true => "true"
  | Bool false => "false"
  | Num NaN => "NaN"
  | Num (Infinity false) => "Infinity"
  | Num (Infinity true) => "-Infinity"
  | Num (Finite z) => Number_toString z
  | Str s => s
  end.

(** *** [isNaN]: ToNumber on strings

    [isNaN(v)] is [true] exactly when ToNumber(v) is [NaN].  For a string
    that is the case when, white space trimmed, it is neither empty nor a
    StrNumericLiteral. *)

Definition is_digit (c : ascii) : bool :=
  (("0" <=? c) && (c <=? "9"))%char.

Definition is_hex_digit (c : ascii) : bool :=
  (is_digit c || (("a" <=? c) && (c <=? "f")) || (("A" <=? c) && (c <=? "F")))%char.

Definition is_octal_digit (c : ascii) : bool :=
  (("0" <=? c) && (c <=? "7"))%char.

Definition is_binary_digit (c : ascii) : bool :=
  ((c =? "0") || (c =? "1"))%char.

(** TAB, LF, VT, FF, CR and SP. *)
Definition is_ascii_space (c : ascii) : bool :=
  let n := nat_of_ascii c in
  ((9 <=? n) && (n <=? 13) || (n =? 32))%nat.

(** Third byte of the white space characters U+2000..U+200A, U+2028,
    U+2029 and U+202F, whose first two bytes are E2 80. *)
Definition is_e280_space (c : ascii) : bool :=
  let n := nat_of_ascii c in
  ((128 <=? n) && (n <=? 138) || (n =? 168) || (n =? 169) || (n =? 175))%nat.

(** Is [a b c] the encoding of U+1680, U+205F, U+3000, U+FEFF or of one of
    the E2 80 characters? *)
Definition is_space3 (a b c : ascii) : bool :=
  match nat_of_ascii a, nat_of_ascii b, nat_of_ascii c with
  | 225, 154, 128 => true
  | 226, 128, _ => is_e280_space c
  | 226, 129, 159 => true
  | 227, 128, 128 => true
  | 239, 187, 191 => true
  | _, _, _ => false
  end.

(** U+00A0 is C2 A0. *)
Definition is_space2 (a b : ascii) : bool :=
  ((nat_of_ascii a =? 194) && (nat_of_ascii b =? 160))%nat.

Fixpoint trim_start (s : list ascii) : list ascii :=
  match s with
  | [] => []
  | a :: s1 =>
    if is_ascii_space a then trim_start s1
    else
      match s1 with
      | b :: s2 =>
        if is_space2 a b then trim_start s2
        else
          match s2 with
          | c :: s3 => if is_space3 a b c then trim_start s3 else s
          | [] => s
          end
      | [] => s
      end
  end.

(** The same from the end, on the reversed bytes. *)
Fixpoint trim_start_rev (s : list ascii) : list ascii :=
  match s with
  | [] => []
  | c :: s1 =>
    if is_ascii_space c then trim_start_rev s1
    else
      match s1 with
      | b :: s2 =>
        if is_space2 b c then trim_start_rev s2
        else
          match s2 with
          | a :: s3 => if is_space3 a b c then trim_start_rev s3 else s
          | [] => s
          end
      | [] => s
      end
  end.

Definition trim (s : string) : string :=
  string_of_list_ascii
    (rev (trim_start_rev (rev (trim_start (list_ascii_of_string s))))).

Fixpoint skip_while (p : ascii -> bool) (s : string) : string :=
  match s with
  | String c s' => if p c then skip_while p s' else s
  | EmptyString => EmptyString
  end.

Definition starts_with (p : ascii -> bool) (s : string) : bool :=
  match s with
  | String c _ => p c
  | EmptyString => false
  end.

(** One or more characters, all satisfying [p]. *)
Definition all_of (p : ascii -> bool) (s : string) : bool :=
  starts_with p s && String.eqb (skip_while p s) "".

Definition skip_sign (s : string) : string :=
  match s with
  | String c s' => if ((c =? "+") || (c =? "-"))%char then s' else s
  | EmptyString => EmptyString
  end.

(** ExponentPart, up to the end of the string. *)
Definition exponent_part (s : string) : bool :=
  match s with
  | String c s' => ((c =? "e") || (c =? "E"))%char && all_of is_digit (skip_sign s')
  | EmptyString => false
  end.

Definition exponent_opt (s : string) : bool :=
  String.eqb s "" || exponent_part s.

(** StrUnsignedDecimalLiteral. *)
Definition unsigned_decimal (s : string) : bool :=
  if String.eqb s "Infinity" then true
  else if starts_with is_digit s then
    match skip_while is_digit s with
    | String "." r => exponent_opt (skip_while is_digit r)
    | r => exponent_opt r
    end
  else
    match s with
    | String "." r => starts_with is_digit r && exponent_opt (skip_while is_digit r)
    | _ => false
    end.

(** NonDecimalIntegerLiteral: 0x, 0o and 0b forms, unsigned. *)
Definition non_decimal (s : string) : bool :=
  match s with
  | String "0" (String c r) =>
    if ((c =? "x") || (c =? "X"))%char then all_of is_hex_digit r
    else if ((c =? "o") || (c =? "O"))%char then all_of is_octal_digit r
    else if ((c =? "b") || (c =? "B"))%char then all_of is_binary_digit r
    else false
  | _ => false
  end.

Definition numeric_literal (s : string) : bool :=
  String.eqb s "" || non_decimal s || unsigned_decimal (skip_sign s).

Definition isNaN (v : value) : bool :=
  match v with
  | undefined => true
  | null => false
  | Bool _ => false
  | Num NaN => true
  | Num _ => false
  | Str s => negb (numeric_literal (trim s))
  end.

End JS.

(** ** Errors

    [ExpressError] takes its status from the caller ([routes/jobs.js] passes
    400).  A [DatabaseError] is what the store driver throws; it is not an
    [ExpressError]. *)

Inductive error :=
| ExpressError (message : string) (status : nat)
| BadRequestError (message : string)
| NotFoundError (message : string)
| DatabaseError (message : string).

(** The class of an error, as [err instanceof C] tells it. *)
Inductive error_class := Express | BadRequest | NotFound | Database.

Definition class_of (e : error) : error_class :=
  match e with
  | ExpressError _ _ => Express
  | BadRequestError _ => BadRequest
  | NotFoundError _ => NotFound
  | DatabaseError _ => Database
  end.

(** Modelled from the spec: [expressError.js] and the error handler of the
    application are missing.  The spec maps a bad request (no fields to
    update, duplicate) to 400, not-found to 404 and any other fault to 500;
    an [ExpressError] carries the status it was built with. *)
Definition http_status (e : error) : nat :=
  match e with
  | ExpressError _ status => status
  | BadRequestError _ => 400
  | NotFoundError _ => 404
  | DatabaseError _ => 500
  end.

(** ** The [jobs] table and the statements sent to it *)

Module Sql.

(** A NUMERIC value: [unscaled / 10 ^ scale]. *)
Record decimal := { unscaled : Z; scale : nat }.

Record job := {
  id : Z;
  title : string;
  salary : option Z;
  equity : option decimal;
  company_handle : string
}.

Inductive column := Id | Title | Salary | Equity | CompanyHandle.

(** The conditions of the WHERE clauses of [models/job.js]; [p] is the
    number of the placeholder [$p]. *)
Inductive condition :=
| lower_title_like (p : nat)      (* LOWER(jobs.title) LIKE $p *)
| salary_ge (p : nat)             (* salary >= $p *)
| equity_ne (p : nat)             (* equity != $p *)
| id_eq (p : nat).                (* id = $p *)

Inductive direction := ASC | DESC.

(** The statements of [models/job.js].  A SELECT and the RETURNING of an
    UPDATE list id, title, salary, equity and company_handle AS
    "companyHandle"; the WHERE conditions are joined by AND.  The text of
    an UPDATE is assembled at run time: it keeps the two strings spliced
    into it. *)
Inductive statement :=
| SELECT (where_ : list condition) (order_by : option (column * direction))
| UPDATE (setCols : string) (idVarIdx : string)
| DELETE (where_ : list condition).

(** *** The SQL text of a statement, white space normalised *)

Definition string_of_nat (n : nat) : string :=
  NilEmpty.string_of_uint (Nat.to_uint n).

Definition placeholder (p : nat) : string := "$" ++ string_of_nat p.

Definition column_name (c : column) : string :=
  match c with
  | Id => "id"
  | Title => "title"
  | Salary => "salary"
  | Equity => "equity"
  | CompanyHandle => "company_handle"
  end.

Definition condition_text (c : condition) : string :=
  match c with
  | lower_title_like p => "LOWER(jobs.title) LIKE " ++ placeholder p
  | salary_ge p => "salary >= " ++ placeholder p
  | equity_ne p => "equity != " ++ placeholder p
  | id_eq p => "id = " ++ placeholder p
  end.

Definition where_text (cs : list condition) : string :=
  match cs with
  | [] => ""
  | _ => " WHERE " ++ String.concat " AND " (map condition_text cs)
  end.

Definition order_text (o : option (column * direction)) : string :=
  match o with
  | None => ""
  | Some (c, ASC) => " ORDER BY " ++ column_name c
  | Some (c, DESC) => " ORDER BY " ++ column_name c ++ " DESC"
  end.

Definition quote : string := String "034" EmptyString.

Definition returning_list : string :=
  "id, title, salary, equity, company_handle AS "
    ++ quote ++ "companyHandle" ++ quote.

Definition text (q : statement) : string :=
  match q with
  | SELECT w o =>
    "SELECT " ++ returning_list ++ " FROM jobs" ++ where_text w ++ order_text o
  | UPDATE setCols idVarIdx =>
    "UPDATE jobs SET " ++ setCols ++ " WHERE id = " ++ idVarIdx
      ++ " RETURNING " ++ returning_list
  | DELETE w => "DELETE FROM jobs" ++ where_text w ++ " RETURNING id"
  end.

(** *** What the driver and the server make of a parameter

    The driver sends [undefined] and [null] as NULL and every other value
    as its text; the server reads the text at the type of the column the
    placeholder is compared or assigned to.  The columns [id] and [salary]
    are INTEGER, of 32 bits: a number beyond them is refused. *)

Definition prepareValue (v : JS.value) : option string :=
  match v with
  | JS.undefined | JS.null => None
  | _ => Some (JS.ToString v)
  end.

Fixpoint take_while (p : ascii -> bool) (s : string) : string :=
  match s with
  | String c s' => if p c then String c (take_while p s') else EmptyString
  | EmptyString => EmptyString
  end.

Fixpoint digits_value (acc : Z) (s : string) : Z :=
  match s with
  | String c s' => digits_value (10 * acc + (Z.of_nat (nat_of_ascii c) - 48)) s'
  | EmptyString => acc
  end.

Definition parse_digits (s : string) : option Z :=
  if JS.all_of JS.is_digit s then Some (digits_value 0 s) else None.

Definition trim_spaces (s : string) : string :=
  let l := list_ascii_of_string (JS.skip_while JS.is_ascii_space s) in
  let r := JS.skip_while JS.is_ascii_space (string_of_list_ascii (rev l)) in
  string_of_list_ascii (rev (list_ascii_of_string r)).

(** Optional sign, then what [body] reads. *)
Definition signed {A} (body : string -> option A) (neg : A -> A) (s : string)
  : option A :=
  match s with
  | String "-" r => option_map neg (body r)
  | String "+" r => body r
  | _ => body s
  end.

(** The integer a text writes, of any size: white space around it, an
    optional sign, digits. *)
Definition parse_integer (s : string) : option Z :=
  signed parse_digits Z.opp (trim_spaces s).

(** Plain decimal notation: digits with an optional fraction, at least one
    digit in all. *)
Definition parse_unsigned_decimal (s : string) : option decimal :=
  let i := take_while JS.is_digit s in
  match JS.skip_while JS.is_digit s with
  | EmptyString =>
    if String.eqb i "" then None
    else Some {| unscaled := digits_value 0 i; scale := 0 |}
  | String "." r =>
    let f := take_while JS.is_digit r in
    if String.eqb (JS.skip_while JS.is_digit r) "" && negb (String.eqb (i ++ f) "")
    then Some {| unscaled := digits_value 0 (i ++ f); scale := String.length f |}
    else None
  | _ => None
  end.

Definition decimal_opp (d : decimal) : decimal :=
  {| unscaled := - unscaled d; scale := scale d |}.

Definition parse_numeric (s : string) : option decimal :=
  signed parse_unsigned_decimal decimal_opp (trim_spaces s).

(** A parameter read at a type: an error when the text is not of the type,
    [None] for NULL. *)
Definition read_as {A} (parse : string -> option A) (type_name : string)
  (v : JS.value) : error + option A :=
  match prepareValue v with
  | None => inr None
  | Some t =>
    match parse t with
    | Some a => inr (Some a)
    | None =>
      inl (DatabaseError ("invalid input syntax for type " ++ type_name ++ ": "
                            ++ quote ++ t ++ quote))
    end
  end.

(** An INTEGER column has 32 bits. *)
Definition int4 (z : Z) : bool :=
  ((-2147483648 <=? z) && (z <=? 2147483647))%Z.

(** A parameter read at INTEGER: the text of an integer, within the 32
    bits. *)
Definition as_integer (v : JS.value) : error + option Z :=
  match read_as parse_integer "integer" v with
  | inr (Some z) =>
    if int4 z then inr (Some z)
    else inl (DatabaseError ("value " ++ quote ++ JS.ToString v ++ quote
                               ++ " is out of range for type integer"))
  | r => r
  end.
Definition as_numeric := read_as parse_numeric "numeric".
Definition as_text := read_as (fun t => Some t) "text".

(** The value bound to placeholder [$p], numbered from 1. *)
Definition param (params : list JS.value) (p : nat) : error + JS.value :=
  match p with
  | O => inl (DatabaseError "there is no parameter $0")
  | S i =>
    match nth_error params i with
    | Some v => inr v
    | None => inl (DatabaseError ("there is no parameter " ++ placeholder p))
    end
  end.

(** *** LIKE and LOWER *)

(** [%] matches any run of bytes, [_] any single one, and a backslash
    makes the byte after it literal. *)
Fixpoint like (pattern s : list ascii) : bool :=
  match pattern with
  | [] => match s with [] => true | _ => false end
  | c :: pattern' =>
    if (c =? "%")%char then
      (fix any (s : list ascii) : bool :=
         like pattern' s || match s with [] => false | _ :: s' => any s' end) s
    else if (c =? "_")%char then
      match s with [] => false | _ :: s' => like pattern' s' end
    else if (c =? "\")%char then
      match pattern' with
      | [] => false
      | d :: pattern'' =>
        match s with [] => false | e :: s' => (d =? e)%char && like pattern'' s' end
      end
    else
      match s with [] => false | e :: s' => (c =? e)%char && like pattern' s' end
  end.

(** A pattern must not end in an unescaped backslash. *)
Fixpoint well_formed_pattern (pattern : list ascii) : bool :=
  match pattern with
  | [] => true
  | c :: pattern' =>
    if (c =? "\")%char then
      match pattern' with
      | [] => false
      | _ :: pattern'' => well_formed_pattern pattern''
      end
    else well_formed_pattern pattern'
  end.

(** LOWER on the letters A to Z; every other byte is kept.  This is LOWER
    where the character type of the database is C, and elsewhere on a text
    of ASCII characters (a locale may lower letters beyond them). *)
Definition lower_ascii (c : ascii) : ascii :=
  if (("A" <=? c) && (c <=? "Z"))%char
  then ascii_of_nat (nat_of_ascii c + 32) else c.

Fixpoint lower (s : string) : string :=
  match s with
  | String c s' => String (lower_ascii c) (lower s')
  | EmptyString => EmptyString
  end.

(** *** Conditions *)

Definition and_then {E A B} (r : E + A) (k : A -> E + B) : E + B :=
  match r with
  | inl e => inl e
  | inr a => k a
  end.

Notation "'do' x <- r ; k" := (and_then r (fun x => k))
  (at level 10, x name, r at level 100, k at level 200).

Fixpoint all_ok {E A B} (f : A -> E + B) (l : list A) : E + list B :=
  match l with
  | [] => inr []
  | a :: l' => do b <- f a; do bs <- all_ok f l'; inr (b :: bs)
  end.

(** A condition with the value of its placeholder read at the type of
    its column; [None] is NULL. *)
Inductive bound :=
| title_matches (pattern : option string)
| salary_at_least (n : option Z)
| equity_differs (d : option decimal)
| id_is (n : option Z).

Definition bind (params : list JS.value) (c : condition) : error + bound :=
  match c with
  | lower_title_like p =>
    do v <- param params p;
    do t <- as_text v;
    match t with
    | Some pattern =>
      if well_formed_pattern (list_ascii_of_string pattern)
      then inr (title_matches t)
      else inl (DatabaseError "LIKE pattern must not end with escape character")
    | None => inr (title_matches None)
    end
  | salary_ge p =>
    do v <- param params p; do n <- as_integer v; inr (salary_at_least n)
  | equity_ne p =>
    do v <- param params p; do d <- as_numeric v; inr (equity_differs d)
  | id_eq p =>
    do v <- param params p; do n <- as_integer v; inr (id_is n)
  end.

Definition pow10 (n : nat) : Z := 10 ^ Z.of_nat n.

Definition decimal_compare (a b : decimal) : comparison :=
  (unscaled a * pow10 (scale b) ?= unscaled b * pow10 (scale a))%Z.

Definition decimal_eqb (a b : decimal) : bool :=
  match decimal_compare a b with Eq => true | _ => false end.

(** Is the condition true of the row?  A comparison with NULL is not. *)
Definition holds (b : bound) (r : job) : bool :=
  match b with
  | title_matches (Some pattern) =>
    like (list_ascii_of_string pattern) (list_ascii_of_string (lower (title r)))
  | salary_at_least (Some n) =>
    match salary r with Some s => (n <=? s)%Z | None => false end
  | equity_differs (Some d) =>
    match equity r with Some e => negb (decimal_eqb e d) | None => false end
  | id_is (Some n) => (id r =? n)%Z
  | _ => false
  end.

Definition selected (bs : list bound) (r : job) : bool :=
  forallb (fun b => holds b r) bs.

(** *** ORDER BY

    NULL sorts as the greatest value (last ascending, first descending);
    text compares byte by byte; rows with equal keys keep their order. *)

Definition compare_option {A} (cmp : A -> A -> comparison) (a b : option A)
  : comparison :=
  match a, b with
  | Some x, Some y => cmp x y
  | Some _, None => Lt
  | None, Some _ => Gt
  | None, None => Eq
  end.

Definition compare_rows (c : column) (a b : job) : comparison :=
  match c with
  | Id => (id a ?= id b)%Z
  | Title => String.compare (title a) (title b)
  | Salary => compare_option Z.compare (salary a) (salary b)
  | Equity => compare_option decimal_compare (equity a) (equity b)
  | CompanyHandle => String.compare (company_handle a) (company_handle b)
  end.

Definition not_after (c : column) (a b : job) : bool :=
  match compare_rows c a b with Gt => false | _ => true end.

(** May [a] come before [b]? *)
Definition precedes (o : column * direction) (a b : job) : bool :=
  match o with
  | (c, ASC) => not_after c a b
  | (c, DESC) => not_after c b a
  end.

Fixpoint insert (le : job -> job -> bool) (x : job) (l : list job) : list job :=
  match l with
  | [] => [x]
  | y :: l' => if le x y then x :: l else y :: insert le x l'
  end.

Definition sort (le : job -> job -> bool) (l : list job) : list job :=
  fold_right (insert le) [] l.

Definition order (o : option (column * direction)) (l : list job) : list job :=
  match o with
  | Some o => sort (precedes o) l
  | None => l
  end.

(** *** SET clauses *)

Definition is_quote (c : ascii) : bool := (c =? "034")%char.

Definition column_of_name (name : string) : option column :=
  if String.eqb name "id" then Some Id
  else if String.eqb name "title" then Some Title
  else if String.eqb name "salary" then Some Salary
  else if String.eqb name "equity" then Some Equity
  else if String.eqb name "company_handle" then Some CompanyHandle
  else None.

(** [$n] at the head of [s], and what follows it. *)
Definition parse_placeholder (s : string) : option (nat * string) :=
  match s with
  | String "$" r =>
    if JS.starts_with JS.is_digit r
    then Some (Z.to_nat (digits_value 0 (take_while JS.is_digit r)),
               JS.skip_while JS.is_digit r)
    else None
  | _ => None
  end.

(** One ["column"=$n] at the head of [s], and what follows it. *)
Definition parse_assignment (s : string) : option ((string * nat) * string) :=
  match s with
  | String q r =>
    if is_quote q then
      let name := take_while (fun c => negb (is_quote c)) r in
      match JS.skip_while (fun c => negb (is_quote c)) r with
      | String _ (String "=" r') =>
        match parse_placeholder r' with
        | Some (p, rest) => Some ((name, p), rest)
        | None => None
        end
      | _ => None
      end
    else None
  | EmptyString => None
  end.

Fixpoint parse_assignments (fuel : nat) (s : string) : option (list (string * nat)) :=
  match fuel with
  | O => None
  | S fuel' =>
    match parse_assignment s with
    | Some (a, EmptyString) => Some [a]
    | Some (a, String "," (String " " rest)) =>
      option_map (cons a) (parse_assignments fuel' rest)
    | _ => None
    end
  end.

(** The assignments of a comma-separated SET clause.  Each assignment takes
    at least one character, so the length of the text is fuel enough. *)
Definition parse_set (setCols : string) : option (list (string * nat)) :=
  parse_assignments (String.length setCols) setCols.

(** A column with its new value, read at the type of the column. *)
Inductive assignment :=
| new_id (z : Z)
| new_title (s : string)
| new_salary (n : option Z)
| new_equity (d : option decimal)
| new_company_handle (s : string).

Definition not_null {A} (name : string) (o : option A) : error + A :=
  match o with
  | Some a => inr a
  | None => inl (DatabaseError ("null value in column " ++ name))
  end.

Definition bind_assignment (params : list JS.value) (a : string * nat)
  : error + assignment :=
  let (name, p) := a in
  match column_of_name name with
  | None => inl (DatabaseError ("column " ++ name ++ " does not exist"))
  | Some c =>
    do v <- param params p;
    match c with
    | Id => do o <- as_integer v; do z <- not_null name o; inr (new_id z)
    | Title => do o <- as_text v; do s <- not_null name o; inr (new_title s)
    | Salary => do n <- as_integer v; inr (new_salary n)
    | Equity => do d <- as_numeric v; inr (new_equity d)
    | CompanyHandle =>
      do o <- as_text v; do s <- not_null name o; inr (new_company_handle s)
    end
  end.

Definition assign (r : job) (a : assignment) : job :=
  match a with
  | new_id z =>
    {| id := z; title := title r; salary := salary r; equity := equity r;
       company_handle := company_handle r |}
  | new_title s =>
    {| id := id r; title := s; salary := salary r; equity := equity r;
       company_handle := company_handle r |}
  | new_salary n =>
    {| id := id r; title := title r; salary := n; equity := equity r;
       company_handle := company_handle r |}
  | new_equity d =>
    {| id := id r; title := title r; salary := salary r; equity := d;
       company_handle := company_handle r |}
  | new_company_handle s =>
    {| id := id r; title := title r; salary := salary r; equity := equity r;
       company_handle := s |}
  end.

Definition assign_all (news : list assignment) (r : job) : job :=
  fold_left assign news r.

(** *** Running a statement *)

(** A result row: the five columns of a job, or the [id] alone that
    DELETE returns. *)
Inductive row :=
| job_row (j : job)
| id_row (id : Z).

Definition syntax_error (near : string) : error :=
  DatabaseError ("syntax error at or near " ++ near).

Definition or_syntax_error {A} (near : string) (o : option A) : error + A :=
  match o with
  | Some a => inr a
  | None => inl (syntax_error near)
  end.

(** The rows a statement returns and the table it leaves. *)
Definition exec (q : statement) (params : list JS.value) (jobs : list job)
  : error + (list row * list job) :=
  match q with
  | SELECT w o =>
    do bs <- all_ok (bind params) w;
    inr (map job_row (order o (filter (selected bs) jobs)), jobs)
  | UPDATE setCols idVarIdx =>
    do sets <- or_syntax_error setCols (parse_set setCols);
    do target <-
      match parse_placeholder idVarIdx with
      | Some (p, EmptyString) => inr (id_eq p)
      | _ => inl (syntax_error idVarIdx)
      end;
    do news <- all_ok (bind_assignment params) sets;
    do b <- bind params target;
    let update r := if holds b r then assign_all news r else r in
    inr (map (fun r => job_row (assign_all news r)) (filter (holds b) jobs),
         map update jobs)
  | DELETE w =>
    do bs <- all_ok (bind params) w;
    inr (map (fun r => id_row (id r)) (filter (selected bs) jobs),
         filter (fun r => negb (selected bs r)) jobs)
  end.

End Sql.

(** ** The database client

    A computation runs against the table and the record of the calls of
    [db.query] made so far; it returns a value or throws. *)

Record world := {
  jobs : list Sql.job;
  queries : list (Sql.statement * list JS.value)
}.

Definition M (A : Type) : Type := world -> (error + A) * world.

Definition ret {A} (a : A) : M A := fun w => (inr a, w).

Definition throw {A} (e : error) : M A := fun w => (inl e, w).

Definition bind {A B} (m : M A) (k : A -> M B) : M B :=
  fun w =>
    match m w with
    | (inl e, w') => (inl e, w')
    | (inr a, w') => k a w'
    end.

Notation "x <- m ;; k" := (bind m (fun x => k))
  (at level 61, m at next level, right associativity).

Module db.

(** [db.query(text, params)]: the call is recorded, the statement runs, and
    the rows of the result come back ([result.rows]). *)
Definition query (q : Sql.statement) (params : list JS.value) : M (list Sql.row) :=
  fun w =>
    let sent := (queries w ++ [(q, params)])%list in
    match Sql.exec q params (jobs w) with
    | inl e => (inl e, {| jobs := jobs w; queries := sent |})
    | inr (rows, jobs') => (inr rows, {| jobs := jobs'; queries := sent |})
    end.

End db.

(** ** helpers/sql.js *)

Record partial_update := { setCols : string; values : list JS.value }.

Fixpoint lookup (jsToSql : list (string * string)) (key : string) : option string :=
  match jsToSql with
  | [] => None
  | (k, col) :: rest => if String.eqb k key then Some col else lookup rest key
  end.

(** Modelled from the spec: the column of a key is its entry in the alias
    map, and the key itself when it has none. *)
Definition column_for (jsToSql : list (string * string)) (key : string) : string :=
  match lookup jsToSql key with
  | Some col => col
  | None => key
  end.

(** Modelled from the spec: one pass over the keys in their order, the
    placeholder index counted from [idx] up. *)
Fixpoint cols (jsToSql : list (string * string)) (idx : nat) (keys : list string)
  : list string :=
  match keys with
  | [] => []
  | colName :: rest =>
    (Sql.quote ++ column_for jsToSql colName ++ Sql.quote ++ "=$"
       ++ Sql.string_of_nat idx) :: cols jsToSql (S idx) rest
  end.

(** Modelled from the spec: [helpers/sql.js] is missing (its test,
    [helpers/sql.test.js], and its caller [Job.update] are there).  An empty
    payload is a bad request (the spec gives the class of the error, not its
    message); otherwise the SET clause is the comma-joined ["column"=$i]
    fragments, numbered from 1 in key order, and the values are those of the
    payload in the same order, untouched. *)
Definition sqlForPartialUpdate (dataToUpdate : JS.object)
  (jsToSql : list (string * string)) : error + partial_update :=
  let keys := JS.keys dataToUpdate in
  if (List.length keys =? 0)%nat then inl (BadRequestError "No data")
  else inr {| setCols := String.concat ", " (cols jsToSql 1 keys);
              values := JS.values dataToUpdate |}.

(** ** models/job.js *)

Module Job.

Import Sql.

Definition by_salary_desc : option (column * direction) := Some (Salary, DESC).

Definition zero : JS.value := JS.Num (JS.Finite 0).

(** The template literal [`%${title}%`]. *)
Definition contains (title : JS.value) : JS.value :=
  JS.Str ("%" ++ JS.ToString title ++ "%").

Definition findAll : M (list row) :=
  jobsRes <- db.query (SELECT [] (Some (CompanyHandle, ASC))) [] ;;
  ret jobsRes.

(** [None] is [undefined]: no branch was taken and nothing is returned. *)
Definition findAllFiltered (criteria : JS.object) : M (option (list row)) :=
  let title := JS.get criteria "title" in
  let minSalary := JS.get criteria "minSalary" in
  let hasEquity := JS.get criteria "hasEquity" in
  let title_ := JS.truthy title in
  let minSalary_ := JS.truthy minSalary in
  let hasEquity_ := JS.truthy hasEquity in
  if title_ && minSalary_ && hasEquity_ then
    jobsRes <- db.query
      (SELECT [lower_title_like 1; salary_ge 2; equity_ne 3] by_salary_desc)
      [contains title; minSalary; zero] ;;
    ret (Some jobsRes)
  else if title_ && negb minSalary_ && negb hasEquity_ then
    jobsRes <- db.query
      (SELECT [lower_title_like 1] by_salary_desc)
      [contains title] ;;
    ret (Some jobsRes)
  else if title_ && minSalary_ && negb hasEquity_ then
    jobsRes <- db.query
      (SELECT [lower_title_like 1; salary_ge 2] by_salary_desc)
      [contains title; minSalary] ;;
    ret (Some jobsRes)
  else if title_ && negb minSalary_ && hasEquity_ then
    jobsRes <- db.query
      (SELECT [lower_title_like 1; equity_ne 2] by_salary_desc)
      [contains title; zero] ;;
    ret (Some jobsRes)
  else if negb title_ && minSalary_ && hasEquity_ then
    jobsRes <- db.query
      (SELECT [salary_ge 1; equity_ne 2] by_salary_desc)
      [minSalary; zero] ;;
    ret (Some jobsRes)
  else if negb title_ && minSalary_ && negb hasEquity_ then
    jobsRes <- db.query
      (SELECT [salary_ge 1] by_salary_desc)
      [minSalary] ;;
    ret (Some jobsRes)
  else if negb title_ && negb minSalary_ && hasEquity_ then
    jobsRes <- db.query
      (SELECT [equity_ne 1] by_salary_desc)
      [zero] ;;
    ret (Some jobsRes)
  else ret None.

Definition invalid_id (id : JS.value) : error :=
  NotFoundError ("Invalid Job ID: " ++ JS.ToString id).

(** [rows[0]], or the error when there is no such row. *)
Definition first_or (e : error) (rows : list row) : M row :=
  match rows with
  | job :: _ => ret job
  | [] => throw e
  end.

Definition get (id : JS.value) : M row :=
  if JS.isNaN id then throw (invalid_id id)
  else
    jobRes <- db.query (SELECT [id_eq 1] None) [id] ;;
    first_or (invalid_id id) jobRes.

Definition update (id : JS.value) (data : JS.object) : M row :=
  if JS.isNaN id then throw (invalid_id id)
  else
    match sqlForPartialUpdate data
            [("title", "title"); ("salary", "salary"); ("equity", "equity")] with
    | inl e => throw e
    | inr {| setCols := setCols; values := values |} =>
      let idVarIdx := "$" ++ string_of_nat (List.length values + 1) in
      result <- db.query (UPDATE setCols idVarIdx) (values ++ [id])%list ;;
      first_or (invalid_id id) result
    end.

Definition remove (id : JS.value) : M row :=
  if JS.isNaN id then throw (invalid_id id)
  else
    result <- db.query (DELETE [id_eq 1]) [id] ;;
    first_or (NotFoundError ("No job with ID: " ++ JS.ToString id)) result.

End Job.

(** ** routes/jobs.js: GET /jobs *)

Module routes.

(** What the handler does with the request: [res.json({ jobs })], where
    [jobs] may be [undefined] ([None]; the body is then the empty object),
    or [next(err)]. *)
Inductive response :=
| json (jobs : option (list Sql.row))
| next (err : error)
| no_response.

Definition includes (l : list string) (x : string) : bool :=
  existsb (String.eqb x) l.

Fixpoint for_of (l : list string) (body : string -> M unit) : M unit :=
  match l with
  | [] => ret tt
  | value :: l' => _ <- body value ;; for_of l' body
  end.

Definition get_jobs_body (query : JS.object) : M response :=
  let allowedFields := ["title"; "minSalary"; "hasEquity"] in
  let filterFields := JS.keys query in
  if (List.length filterFields =? 0)%nat then
    jobs <- Job.findAll ;;
    ret (json (Some jobs))
  else if (0 <? List.length filterFields)%nat then
    _ <- for_of filterFields (fun value =>
           if negb (includes allowedFields value)
           then throw (ExpressError "You may only filter on title, salary and equity" 400)
           else ret tt) ;;
    jobs <- Job.findAllFiltered query ;;
    ret (json jobs)
  else ret no_response.

(** The handler with its [try ... catch (err) { return next(err) }]. *)
Definition get_jobs (query : JS.object) (w : world) : response * world :=
  match get_jobs_body query w with
  | (inl err, w') => (next err, w')
  | (inr r, w') => (r, w')
  end.

End routes.

(** ** Vocabulary of the statements below *)

(** The calls of [db.query] a computation makes, in order. *)
Definition calls {X} (m : world -> X * world) (w : world)
  : list (Sql.statement * list JS.value) :=
  skipn (List.length (queries w)) (queries (snd (m w))).

(** What a computation comes to: for an [M A], the value returned or the
    error thrown. *)
Definition outcome {X} (m : world -> X * world) (w : world) : X := fst (m w).

(** The class of the error a computation throws, if it throws. *)
Definition thrown {A} (m : M A) (w : world) : option error_class :=
  match outcome m w with
  | inl e => Some (class_of e)
  | inr _ => None
  end.

(** One [(clause, parameter)] entry per truthy criterion, in title, salary,
    equity order: the assembly the spec's design notes describe. *)
Definition clauses (criteria : JS.object) : list ((nat -> Sql.condition) * JS.value) :=
  ((if JS.truthy (JS.get criteria "title")
    then [(Sql.lower_title_like, Job.contains (JS.get criteria "title"))] else [])
   ++ (if JS.truthy (JS.get criteria "minSalary")
       then [(Sql.salary_ge, JS.get criteria "minSalary")] else [])
   ++ (if JS.truthy (JS.get criteria "hasEquity")
       then [(Sql.equity_ne, Job.zero)] else []))%list.

(** Placeholders numbered by position, from [idx]. *)
Fixpoint numbered (idx : nat) (l : list (nat -> Sql.condition)) : list Sql.condition :=
  match l with
  | [] => []
  | c :: l' => c idx :: numbered (S idx) l'
  end.

Definition assembled (criteria : JS.object) : Sql.statement * list JS.value :=
  (Sql.SELECT (numbered 1 (map fst (clauses criteria))) Job.by_salary_desc,
   map snd (clauses criteria)).

(** The one query [m] makes is ordered by salary, greatest first, and has
    the condition [c] on a placeholder whose parameter is [v]. *)
Definition sends {X} (m : world -> X * world) (w : world)
  (c : nat -> Sql.condition) (v : JS.value) : Prop :=
  exists conds params p,
    calls m w = [(Sql.SELECT conds (Some (Sql.Salary, Sql.DESC)), params)]
    /\ In (c p) conds
    /\ Sql.param params p = inr v.

(** No query [m] makes has the condition [c], on any placeholder. *)
Definition sends_no {X} (m : world -> X * world) (w : world)
  (c : nat -> Sql.condition) : Prop :=
  forall conds order_by params p,
    In (Sql.SELECT conds order_by, params) (calls m w) -> ~ In (c p) conds.

(** [le] lets [a] come before [b]. *)
Definition in_order (le : Sql.job -> Sql.job -> bool) (a b : Sql.job) : Prop :=
  le a b = true.

(** [a] may come before [b] when sorting by salary, greatest first; a
    missing salary counts as the greatest. *)
Definition salary_descending (a b : Sql.job) : Prop :=
  match Sql.salary a, Sql.salary b with
  | None, _ => True
  | Some _, None => False
  | Some x, Some y => (y <= x)%Z
  end.

Definition handle_ascending (a b : Sql.job) : Prop :=
  String.leb (Sql.company_handle a) (Sql.company_handle b) = true.

Definition positive (d : Sql.decimal) : Prop := (0 < Sql.unscaled d)%Z.

Definition is_upper (c : ascii) : bool := (("A" <=? c) && (c <=? "Z"))%char.

(** The keys [GET /jobs] lets through. *)
Definition allowed (key : string) : Prop :=
  key = "title" \/ key = "minSalary" \/ key = "hasEquity".

(** The fields [PATCH /jobs/:id] lets through. *)
Definition updatable (key : string) : Prop :=
  key = "title" \/ key = "salary" \/ key = "equity".


(** *** Sample tables *)

Definition num (z : Z) : JS.value := JS.Num (JS.Finite z).

Definition dec (m : Z) (s : nat) : option Sql.decimal :=
  Some {| Sql.unscaled := m; Sql.scale := s |}.

Definition table (l : list Sql.job) : world := {| jobs := l; queries := [] |}.

(** The three jobs the tests of [models/job.js] run against. *)
Definition J1 : Sql.job :=
  {| Sql.id := 1; Sql.title := "J1"; Sql.salary := Some 100000%Z;
     Sql.equity := dec 0 0; Sql.company_handle := "c1" |}.
Definition J2 : Sql.job :=
  {| Sql.id := 2; Sql.title := "J2"; Sql.salary := Some 200000%Z;
     Sql.equity := dec 2 1; Sql.company_handle := "c1" |}.
Definition J3 : Sql.job :=
  {| Sql.id := 3; Sql.title := "J3"; Sql.salary := Some 300000%Z;
     Sql.equity := dec 3 1; Sql.company_handle := "c2" |}.

Definition testJobs : world := table [J1; J2; J3].

Definition engineer : Sql.job :=
  {| Sql.id := 7; Sql.title := "Engineer"; Sql.salary := Some 90000%Z;
     Sql.equity := None; Sql.company_handle := "c1" |}.

(** A job whose equity is -0.5. *)
Definition underwater : Sql.job :=
  {| Sql.id := 8; Sql.title := "Diver"; Sql.salary := Some 50000%Z;
     Sql.equity := dec (-5) 1; Sql.company_handle := "c2" |}.

(** The byte of the double quote does not occur in the name. *)
Definition unquoted (name : string) : Prop :=
  forall c, In c (list_ascii_of_string name) -> Sql.is_quote c = false.

(** The assignment is to neither [id] nor [company_handle]. *)
Definition keeps_identity (a : Sql.assignment) : Prop :=
  match a with
  | Sql.new_id _ | Sql.new_company_handle _ => False
  | _ => True
  end.

(** Whatever the store throws is a [DatabaseError]. *)
Definition database_errors {A} (r : error + A) : Prop :=
  forall e, r = inl e -> class_of e = Database.

(** The update the tests of [models/job.js] make to J3, and the row it leaves. *)
Definition updateData : JS.object :=
  [("title", JS.Str "New"); ("salary", num 150000); ("equity", JS.Str "0.9")].

Definition J3_updated : Sql.job :=
  {| Sql.id := 3; Sql.title := "New"; Sql.salary := Some 150000%Z;
     Sql.equity := dec 9 1; Sql.company_handle := "c2" |}.

(** *** Statements of the spec that the code does not bear out *)

Definition falsy (criteria : JS.object) (key : string) : Prop :=
  JS.truthy (JS.get criteria key) = false.

(** C2 as stated: whenever [minSalary] is present, zero included, the
    query has the predicate [salary >= minSalary] and [minSalary] among its
    parameters. *)
Definition salary_predicate_whenever_present : Prop :=
  forall criteria w,
    In "minSalary" (JS.keys criteria) ->
    exists conds order_by params p,
      calls (Job.findAllFiltered criteria) w = [(Sql.SELECT conds order_by, params)]
      /\ In (Sql.salary_ge p) conds
      /\ Sql.param params p = inr (JS.get criteria "minSalary").

(** C6 as stated, its last part: with a truthy [hasEquity] only jobs whose
    equity is strictly greater than zero come back. *)
Definition hasEquity_returns_positive_equity_only : Prop :=
  forall criteria w rows j,
    JS.truthy (JS.get criteria "hasEquity") = true ->
    outcome (Job.findAllFiltered criteria) w = inr (Some rows) ->
    In (Sql.job_row j) rows ->
    exists e, Sql.equity j = Some e /\ positive e.

(** The request found no branch: the body is the empty object and no
    query was made. *)
Definition answers_nothing (query : JS.object) (w : world) : Prop :=
  routes.get_jobs query w = (routes.json None, w).

(** C8 as stated: all three criteria falsy means no branch, no query and
    [undefined]; [GET /jobs] gets there with [?title=] and with
    [?minSalary=0]. *)
Definition falsy_values_reach_no_branch : Prop :=
  (forall criteria w,
      falsy criteria "title" -> falsy criteria "minSalary" ->
      falsy criteria "hasEquity" ->
      Job.findAllFiltered criteria w = (inr None, w))
  /\ (forall w, answers_nothing [("title", JS.Str "")] w)
  /\ (forall w, answers_nothing [("minSalary", JS.Str "0")] w).

(** C4 as stated: the builder rejects the empty payload whatever the alias
    map, so [Job.update(id, {})] is a bad request, status 400, for every
    id. *)
Definition empty_update_is_bad_request_for_every_id : Prop :=
  (forall jsToSql, exists e,
      sqlForPartialUpdate [] jsToSql = inl e /\ class_of e = BadRequest)
  /\ (forall id w, exists e,
        outcome (Job.update id []) w = inl e
        /\ class_of e = BadRequest /\ http_status e = 400).

(** C9 as stated, its last part: a hasEquity present in the query string
    is never false, it always puts the equity predicate in the query. *)
Definition present_hasEquity_is_never_false : Prop :=
  forall query w s,
    Forall allowed (JS.keys query) ->
    In ("hasEquity", JS.Str s) query ->
    sends (routes.get_jobs query) w Sql.equity_ne Job.zero.



(** ** models/job.js: [Job.create]

    The two statements of [Job.create] have fixed texts and are run here
    by two operations of their own; they are not entered in the record of
    calls of [world].  The id of a new row is generated by the store: it is
    a parameter, [generated].  The schema of the table is not in the
    sources; whether its constraints (the company of a job is a foreign
    key, the id is the primary key) let a row into a table is a parameter
    too, [accepts]. *)

Module Create.

Import Sql.

(** [title = $1 AND company_handle = $2]; a comparison with NULL is not
    true. *)
Definition same_title_and_company (title company : option string) (r : job) : bool :=
  match title, company with
  | Some t, Some c => String.eqb (Sql.title r) t && String.eqb (company_handle r) c
  | _, _ => false
  end.

(** [SELECT title FROM jobs WHERE title = $1 AND company_handle = $2]: the
    titles found. *)
Definition select_title (params : list JS.value) (jobs : list job)
  : error + list string :=
  do v1 <- param params 1; do t <- as_text v1;
  do v2 <- param params 2; do c <- as_text v2;
  inr (map Sql.title (filter (same_title_and_company t c) jobs)).

(** [INSERT INTO jobs (title, salary, equity, company_handle) VALUES ($1,
    $2, $3, $4) RETURNING ...]: the row returned and the table with the new
    row at its end, when the constraints of the schema let the row in. *)
Definition insert_job (accepts : list job -> job -> bool) (generated : Z)
  (params : list JS.value) (jobs : list job)
  : error + (list job * list job) :=
  do v1 <- param params 1; do t <- as_text v1; do title <- not_null "title" t;
  do v2 <- param params 2; do salary <- as_integer v2;
  do v3 <- param params 3; do equity <- as_numeric v3;
  do v4 <- param params 4; do c <- as_text v4;
  do company <- not_null "company_handle" c;
  let job := {| id := generated; Sql.title := title; Sql.salary := salary;
                Sql.equity := equity; company_handle := company |} in
  if accepts jobs job then inr ([job], (jobs ++ [job])%list)
  else inl (DatabaseError "new row for relation jobs violates a constraint").

Definition query_select_title (params : list JS.value) : M (list string) :=
  fun w =>
    match select_title params (jobs w) with
    | inl e => (inl e, w)
    | inr rows => (inr rows, w)
    end.

Definition query_insert (accepts : list job -> job -> bool) (generated : Z)
  (params : list JS.value) : M (list job) :=
  fun w =>
    match insert_job accepts generated params (jobs w) with
    | inl e => (inl e, w)
    | inr (rows, jobs') => (inr rows, {| jobs := jobs'; queries := queries w |})
    end.

(** [None] is [undefined]: what [result.rows[0]] is when no row comes
    back. *)
Definition create (accepts : list job -> job -> bool) (generated : Z)
  (data : JS.object) : M (option job) :=
  let title := JS.get data "title" in
  let salary := JS.get data "salary" in
  let equity := JS.get data "equity" in
  let companyHandle := JS.get data "companyHandle" in
  duplicateCheck <- query_select_title [title; companyHandle] ;;
  match duplicateCheck with
  | _ :: _ => throw (BadRequestError ("Duplicate job title: " ++ JS.ToString title))
  | [] =>
    result <- query_insert accepts generated [title; salary; equity; companyHandle] ;;
    ret (hd_error result)
  end.

End Create.

(** ** routes/jobs.js: the other handlers

    Each is the handler proper, run once the middleware before it (not in
    the sources) has let the request through.  [req.params.id] is [id],
    [req.body] is [body].  The JSON-schema validator and the update schema
    are not in the sources: [validate] stands for
    [jsonschema.validate(body, schema).errors.map(e => e.stack)], and the
    body is valid when there is no error. *)

Module router.

Inductive response :=
| json_job (status : nat) (job : option Sql.row)   (* res.status(s).json({ job }) *)
| json_deleted (id : Z)                            (* res.json({ deleted: id }) *)
| next (err : error).

Definition handle (body : M response) (w : world) : response * world :=
  match body w with
  | (inl err, w') => (next err, w')
  | (inr r, w') => (r, w')
  end.

(** The message made of the error stacks. *)
Definition stacks (errs : list string) : string := String.concat "," errs.

Definition post (validate : JS.object -> list string)
  (accepts : list Sql.job -> Sql.job -> bool) (generated : Z)
  (body : JS.object) : world -> response * world :=
  handle
    (match validate body with
     | _ :: _ as errs => throw (BadRequestError (stacks errs))
     | [] =>
       job <- Create.create accepts generated body ;;
       ret (json_job 201 (option_map Sql.job_row job))
     end).

Definition get_id (id : JS.value) : world -> response * world :=
  handle (job <- Job.get id ;; ret (json_job 200 (Some job))).

Definition patch_id (validate : JS.object -> list string) (id : JS.value)
  (body : JS.object) : world -> response * world :=
  handle
    (let allowedFields := ["title"; "salary"; "equity"] in
     let updateFields := JS.keys body in
     _ <- routes.for_of updateFields (fun value =>
            if negb (routes.includes allowedFields value)
            then throw (ExpressError "You may only update the title, salary or equity" 400)
            else ret tt) ;;
     match validate body with
     | _ :: _ as errs => throw (BadRequestError (stacks errs))
     | [] =>
       job <- Job.update id body ;;
       ret (json_job 200 (Some job))
     end).

(** [remJob.id]. *)
Definition row_id (r : Sql.row) : Z :=
  match r with
  | Sql.job_row j => Sql.id j
  | Sql.id_row id => id
  end.

Definition delete_id (id : JS.value) : world -> response * world :=
  handle (remJob <- Job.remove id ;; ret (json_deleted (row_id remJob))).

End router.

(** ** More vocabulary *)





(** The table after a computation. *)
Definition table_after {X} (m : world -> X * world) (w : world) : list Sql.job :=
  jobs (snd (m w)).

(** The column an assignment is to. *)
Definition target (a : Sql.assignment) : Sql.column :=
  match a with
  | Sql.new_id _ => Sql.Id
  | Sql.new_title _ => Sql.Title
  | Sql.new_salary _ => Sql.Salary
  | Sql.new_equity _ => Sql.Equity
  | Sql.new_company_handle _ => Sql.CompanyHandle
  end.

(** The two rows have the same value in the column. *)
Definition same_at (c : Sql.column) (j j' : Sql.job) : Prop :=
  match c with
  | Sql.Id => Sql.id j = Sql.id j'
  | Sql.Title => Sql.title j = Sql.title j'
  | Sql.Salary => Sql.salary j = Sql.salary j'
  | Sql.Equity => Sql.equity j = Sql.equity j'
  | Sql.CompanyHandle => Sql.company_handle j = Sql.company_handle j'
  end.

(** The row has the value of the assignment in its column. *)
Definition assigned (a : Sql.assignment) (j : Sql.job) : Prop :=
  match a with
  | Sql.new_id z => Sql.id j = z
  | Sql.new_title s => Sql.title j = s
  | Sql.new_salary n => Sql.salary j = n
  | Sql.new_equity d => Sql.equity j = d
  | Sql.new_company_handle s => Sql.company_handle j = s
  end.

(** The field [key] of the row is what the store reads [v] as. *)
Definition stored_as (key : string) (v : JS.value) (j : Sql.job) : Prop :=
  (key = "title" -> Sql.as_text v = inr (Some (Sql.title j)))
  /\ (key = "salary" -> Sql.as_integer v = inr (Sql.salary j))
  /\ (key = "equity" -> Sql.as_numeric v = inr (Sql.equity j)).

(** No two jobs have the same id. *)
Definition unique_ids (l : list Sql.job) : Prop := NoDup (map Sql.id l).

(** No two jobs have the same title at the same company. *)
Definition unique_titles (l : list Sql.job) : Prop :=
  NoDup (map (fun j => (Sql.title j, Sql.company_handle j)) l).

(** A validator that finds nothing wrong. *)
Definition no_errors (body : JS.object) : list string := [].

(** A schema whose constraints let in the jobs of the companies c1 and
    c2. *)
Definition of_c1_or_c2 (l : list Sql.job) (job : Sql.job) : bool :=
  String.eqb (Sql.company_handle job) "c1" || String.eqb (Sql.company_handle job) "c2".

Definition newJob : JS.object :=
  [("title", JS.Str "new"); ("salary", num 100000); ("equity", JS.Str "0");
   ("companyHandle", JS.Str "c1")].

Definition new_row : Sql.job :=
  {| Sql.id := 4; Sql.title := "new"; Sql.salary := Some 100000%Z;
     Sql.equity := dec 0 0; Sql.company_handle := "c1" |}.

(** * Properties *)

(** ** The model on the cases of the test suites *)

Example isNaN_samples :
  map JS.isNaN
    [JS.Str "nope"; JS.Str "12"; JS.Str " 12 "; JS.Str ""; JS.Str "1.5";
     JS.Str "-.5e3"; JS.Str "0x1F"; JS.Str "+Infinity"; JS.Str "1e"; JS.Str "12px";
     JS.Str "+0x10"; JS.Str "."; num 7; JS.null; JS.undefined]
  = [true; false; false; false; false; false; false; false; true; true; true; true;
     false; false; true].
Proof. reflexivity. Qed.

Example ToString_samples :
  map JS.ToString [num 0; num (-42); JS.Str "a"; JS.Bool true] = ["0"; "-42"; "a"; "true"].
Proof. reflexivity. Qed.

Example text_of_the_full_filter :
  Sql.text (Sql.SELECT [Sql.lower_title_like 1; Sql.salary_ge 2; Sql.equity_ne 3]
              Job.by_salary_desc)
  = "SELECT id, title, salary, equity, company_handle AS " ++ Sql.quote
      ++ "companyHandle" ++ Sql.quote
      ++ " FROM jobs WHERE LOWER(jobs.title) LIKE $1 AND salary >= $2 AND equity != $3"
      ++ " ORDER BY salary DESC".
Proof. reflexivity. Qed.

Example findAll_works :
  outcome Job.findAll testJobs = inr [Sql.job_row J1; Sql.job_row J2; Sql.job_row J3].
Proof. reflexivity. Qed.

Example findAllFiltered_title :
  outcome (Job.findAllFiltered [("title", JS.Str "1")]) testJobs
  = inr (Some [Sql.job_row J1]).
Proof. reflexivity. Qed.

Example findAllFiltered_minSalary :
  outcome (Job.findAllFiltered [("minSalary", num 200000)]) testJobs
  = inr (Some [Sql.job_row J3; Sql.job_row J2]).
Proof. reflexivity. Qed.

Example findAllFiltered_hasEquity :
  outcome (Job.findAllFiltered [("hasEquity", JS.Str "yes")]) testJobs
  = inr (Some [Sql.job_row J3; Sql.job_row J2]).
Proof. reflexivity. Qed.

Example get_works : outcome (Job.get (num 3)) testJobs = inr (Sql.job_row J3).
Proof. reflexivity. Qed.

Example get_nope :
  outcome (Job.get (JS.Str "nope")) testJobs = inl (NotFoundError "Invalid Job ID: nope").
Proof. reflexivity. Qed.

(** A fraction passes [isNaN]; it is the store that refuses it. *)
Example get_fraction :
  thrown (Job.get (JS.Str "1.5")) testJobs = Some Database.
Proof. reflexivity. Qed.

Example update_works :
  Job.update (num 3) updateData testJobs
  = (inr (Sql.job_row J3_updated),
     {| jobs := [J1; J2; J3_updated];
        queries :=
          [(Sql.UPDATE (Sql.quote ++ "title" ++ Sql.quote ++ "=$1, "
                          ++ Sql.quote ++ "salary" ++ Sql.quote ++ "=$2, "
                          ++ Sql.quote ++ "equity" ++ Sql.quote ++ "=$3") "$4",
            [JS.Str "New"; num 150000; JS.Str "0.9"; num 3])] |}).
Proof. reflexivity. Qed.

Example update_null_fields :
  outcome (Job.update (num 3)
             [("title", JS.Str "New"); ("salary", JS.null); ("equity", JS.null)]) testJobs
  = inr (Sql.job_row {| Sql.id := 3; Sql.title := "New"; Sql.salary := None;
                        Sql.equity := None; Sql.company_handle := "c2" |}).
Proof. reflexivity. Qed.

Example update_no_data :
  outcome (Job.update (num 3) []) testJobs = inl (BadRequestError "No data").
Proof. reflexivity. Qed.

Example remove_works :
  Job.remove (num 3) testJobs
  = (inr (Sql.id_row 3),
     {| jobs := [J1; J2];
        queries := [(Sql.DELETE [Sql.id_eq 1], [num 3])] |}).
Proof. reflexivity. Qed.

Example get_jobs_unknown_filter :
  routes.get_jobs [("name", JS.Str "x")] testJobs
  = (routes.next (ExpressError "You may only filter on title, salary and equity" 400),
     testJobs).
Proof. reflexivity. Qed.

(** ** The database client *)

Lemma skipn_length_app {A} (l l' : list A) : skipn (List.length l) (l ++ l')%list = l'.
Proof. induction l; simpl; auto. Qed.

Lemma calls_ret {A} (a : A) w : calls (ret a) w = [].
Proof. unfold calls, ret. simpl. apply skipn_all. Qed.

Lemma calls_throw {A} e w : calls (@throw A e) w = [].
Proof. unfold calls, throw. simpl. apply skipn_all. Qed.

Lemma queries_query q ps w :
  queries (snd (db.query q ps w)) = (queries w ++ [(q, ps)])%list.
Proof.
  unfold db.query. destruct (Sql.exec q ps (jobs w)) as [e | [rows jobs']]; reflexivity.
Qed.

(** A query followed by a step that touches the database no more. *)
Lemma calls_query_then {A} q ps (k : list Sql.row -> M A) w :
  (forall rows w', queries (snd (k rows w')) = queries w') ->
  calls (rows <- db.query q ps ;; k rows) w = [(q, ps)].
Proof.
  intros Hk. unfold calls, bind.
  pose proof (queries_query q ps w) as Hq.
  destruct (db.query q ps w) as [[e | rows] w'] eqn:E; simpl in *.
  - rewrite Hq. apply skipn_length_app.
  - rewrite Hk, Hq. apply skipn_length_app.
Qed.

Lemma outcome_query_then {A} q ps (k : list Sql.row -> M A) w :
  outcome (rows <- db.query q ps ;; k rows) w =
  match Sql.exec q ps (jobs w) with
  | inl e => inl e
  | inr (rows, jobs') =>
    outcome (k rows) {| jobs := jobs'; queries := (queries w ++ [(q, ps)])%list |}
  end.
Proof.
  unfold outcome, bind, db.query.
  destruct (Sql.exec q ps (jobs w)) as [e | [rows jobs']]; reflexivity.
Qed.

(** ** The seven branches are the assembly of the truthy criteria *)

Lemma findAllFiltered_assembled criteria :
  Job.findAllFiltered criteria =
  match clauses criteria with
  | [] => ret None
  | _ => jobsRes <- db.query (fst (assembled criteria)) (snd (assembled criteria)) ;;
         ret (Some jobsRes)
  end.
Proof.
  unfold Job.findAllFiltered, assembled, clauses.
  destruct (JS.truthy (JS.get criteria "title")),
           (JS.truthy (JS.get criteria "minSalary")),
           (JS.truthy (JS.get criteria "hasEquity")); reflexivity.
Qed.

Lemma clauses_nil criteria :
  clauses criteria = [] <->
  JS.truthy (JS.get criteria "title") = false /\
  JS.truthy (JS.get criteria "minSalary") = false /\
  JS.truthy (JS.get criteria "hasEquity") = false.
Proof.
  unfold clauses.
  destruct (JS.truthy (JS.get criteria "title")),
           (JS.truthy (JS.get criteria "minSalary")),
           (JS.truthy (JS.get criteria "hasEquity")); simpl;
    split; intros H; try discriminate; try tauto;
    destruct H as (? & ? & ?); discriminate.
Qed.

Lemma calls_findAllFiltered criteria w :
  calls (Job.findAllFiltered criteria) w =
  match clauses criteria with
  | [] => []
  | _ => [assembled criteria]
  end.
Proof.
  rewrite findAllFiltered_assembled.
  destruct (clauses criteria) eqn:E.
  - apply calls_ret.
  - rewrite calls_query_then by reflexivity. destruct (assembled criteria); reflexivity.
Qed.

Lemma outcome_findAllFiltered criteria w :
  outcome (Job.findAllFiltered criteria) w =
  match clauses criteria with
  | [] => inr None
  | _ =>
    match Sql.exec (fst (assembled criteria)) (snd (assembled criteria)) (jobs w) with
    | inl e => inl e
    | inr (rows, _) => inr (Some rows)
    end
  end.
Proof.
  rewrite findAllFiltered_assembled.
  destruct (clauses criteria) eqn:E; [reflexivity |].
  rewrite outcome_query_then.
  destruct (Sql.exec _ _ _) as [e | [rows jobs']]; reflexivity.
Qed.

(** ** Running a SELECT *)

Lemma all_ok_In {E A B} (f : A -> E + B) l bs a :
  Sql.all_ok f l = inr bs -> In a l -> exists b, f a = inr b /\ In b bs.
Proof.
  revert bs. induction l as [| x l IH]; simpl; intros bs H Ha; [contradiction |].
  destruct (f x) as [e | b] eqn:Ex; simpl in H; [discriminate |].
  destruct (Sql.all_ok f l) as [e | bs'] eqn:El; simpl in H; [discriminate |].
  injection H as <-. destruct Ha as [-> | Ha].
  - exists b. split; [assumption | now left].
  - destruct (IH bs' eq_refl Ha) as (b' & Hb & Hin). exists b'. split; [assumption | now right].
Qed.

Lemma exec_select conds o ps l rows l' :
  Sql.exec (Sql.SELECT conds o) ps l = inr (rows, l') ->
  exists bs, Sql.all_ok (Sql.bind ps) conds = inr bs /\
             rows = map Sql.job_row (Sql.order o (filter (Sql.selected bs) l)) /\
             l' = l.
Proof.
  simpl. destruct (Sql.all_ok (Sql.bind ps) conds) as [e | bs]; simpl; [discriminate |].
  intros H. injection H as <- <-. exists bs. auto.
Qed.

(** *** Insertion sort *)

Section Sorting.

Variable le : Sql.job -> Sql.job -> bool.
Hypothesis le_total : forall a b, le a b = false -> le b a = true.

Lemma insert_perm x l : Permutation (x :: l) (Sql.insert le x l).
Proof.
  induction l as [| y l IH]; simpl; [apply Permutation_refl |].
  destruct (le x y); [apply Permutation_refl |].
  eapply perm_trans; [apply perm_swap | apply perm_skip, IH].
Qed.

Lemma sort_perm l : Permutation l (Sql.sort le l).
Proof.
  induction l as [| x l IH]; simpl; [constructor |].
  eapply perm_trans; [apply perm_skip, IH | apply insert_perm].
Qed.

Lemma insert_hd x y l :
  in_order le y x -> HdRel (in_order le) y l -> HdRel (in_order le) y (Sql.insert le x l).
Proof.
  intros Hyx Hl. destruct l as [| z l]; simpl; [now constructor |].
  destruct (le x z); constructor; [assumption |].
  now inversion Hl.
Qed.

Lemma insert_sorted x l :
  Sorted (in_order le) l -> Sorted (in_order le) (Sql.insert le x l).
Proof.
  induction 1 as [| y l Hs IH Hhd]; simpl.
  - repeat constructor.
  - destruct (le x y) eqn:E.
    + constructor; [now constructor | now constructor].
    + constructor; [assumption |].
      apply insert_hd; [now apply le_total | assumption].
Qed.

Lemma sort_sorted l : Sorted (in_order le) (Sql.sort le l).
Proof.
  induction l as [| x l IH]; simpl; [constructor | now apply insert_sorted].
Qed.

End Sorting.

Lemma compare_option_antisym {A} (cmp : A -> A -> comparison) :
  (forall x y, cmp y x = CompOpp (cmp x y)) ->
  forall a b, Sql.compare_option cmp b a = CompOpp (Sql.compare_option cmp a b).
Proof. intros H [x |] [y |]; simpl; auto. Qed.

Lemma compare_rows_antisym c a b :
  Sql.compare_rows c b a = CompOpp (Sql.compare_rows c a b).
Proof.
  destruct c; simpl.
  - apply Z.compare_antisym.
  - apply String.compare_antisym.
  - apply compare_option_antisym. intros; apply Z.compare_antisym.
  - apply compare_option_antisym. intros; apply Z.compare_antisym.
  - apply String.compare_antisym.
Qed.

Lemma precedes_total o a b : Sql.precedes o a b = false -> Sql.precedes o b a = true.
Proof.
  destruct o as [c []]; unfold Sql.precedes, Sql.not_after.
  - rewrite (compare_rows_antisym c a b). destruct (Sql.compare_rows c a b); simpl; congruence.
  - rewrite (compare_rows_antisym c b a). destruct (Sql.compare_rows c b a); simpl; congruence.
Qed.

Lemma precedes_salary_desc a b :
  Sql.precedes (Sql.Salary, Sql.DESC) a b = true <-> salary_descending a b.
Proof.
  unfold Sql.precedes, Sql.not_after, salary_descending; simpl.
  destruct (Sql.salary a) as [x |], (Sql.salary b) as [y |]; simpl;
    try (split; [tauto | reflexivity]); try (split; [discriminate | contradiction]).
  destruct (Z.compare_spec y x); split; intros; try lia; try discriminate; reflexivity.
Qed.

Lemma precedes_handle_asc a b :
  Sql.precedes (Sql.CompanyHandle, Sql.ASC) a b = true <-> handle_ascending a b.
Proof.
  unfold Sql.precedes, Sql.not_after, handle_ascending, String.leb; simpl.
  destruct (String.compare _ _); split; congruence.
Qed.

Lemma Sorted_iff {A} (R R' : A -> A -> Prop) l :
  (forall a b, R a b -> R' a b) -> Sorted R l -> Sorted R' l.
Proof.
  intros H. induction 1 as [| x l Hs IH Hhd]; constructor; [assumption |].
  destruct Hhd; constructor; auto.
Qed.

Lemma order_sorted o (R : Sql.job -> Sql.job -> Prop) l :
  (forall a b, Sql.precedes o a b = true -> R a b) ->
  Sorted R (Sql.order (Some o) l).
Proof.
  intros H. simpl. eapply Sorted_iff; [exact H |].
  apply sort_sorted, precedes_total.
Qed.

Lemma order_perm o l : Permutation l (Sql.order o l).
Proof. destruct o; simpl; [apply sort_perm | apply Permutation_refl]. Qed.

(** ** Claims about the filtered listing *)

Lemma assembled_order criteria :
  exists conds, fst (assembled criteria) = Sql.SELECT conds (Some (Sql.Salary, Sql.DESC)).
Proof. eexists. reflexivity. Qed.

Lemma rows_findAllFiltered criteria w rows :
  outcome (Job.findAllFiltered criteria) w = inr (Some rows) ->
  exists bs,
    Sql.all_ok (Sql.bind (snd (assembled criteria))) (numbered 1 (map fst (clauses criteria)))
      = inr bs /\
    rows = map Sql.job_row
             (Sql.order Job.by_salary_desc (filter (Sql.selected bs) (jobs w))).
Proof.
  rewrite outcome_findAllFiltered.
  destruct (clauses criteria) eqn:E; [discriminate |].
  destruct (Sql.exec _ _ _) as [e | [rows' l']] eqn:Ex; [discriminate |].
  intros H. injection H as <-.
  unfold assembled in Ex. rewrite E in Ex. simpl fst in Ex. simpl snd in Ex.
  apply exec_select in Ex. destruct Ex as (bs & Hbs & Hrows & _).
  exists bs. unfold assembled. rewrite E. simpl snd. auto.
Qed.

Lemma filter_selected_nil l : filter (Sql.selected []) l = l.
Proof. induction l as [| x l IH]; simpl; [reflexivity | now rewrite IH]. Qed.

(** C5: every query of the filtered listing is ordered by salary,
    descending, and its rows come back in that order; the unfiltered
    listing is ordered by company handle, ascending, for every table. *)
Theorem filtered_by_salary_desc_unfiltered_by_handle criteria w :
  (if JS.truthy (JS.get criteria "title") || JS.truthy (JS.get criteria "minSalary")
      || JS.truthy (JS.get criteria "hasEquity")
   then exists conds params,
       calls (Job.findAllFiltered criteria) w
       = [(Sql.SELECT conds (Some (Sql.Salary, Sql.DESC)), params)]
   else calls (Job.findAllFiltered criteria) w = [])
  /\ match outcome (Job.findAllFiltered criteria) w with
     | inr (Some rows) =>
       exists found, rows = map Sql.job_row found /\ Sorted salary_descending found
     | _ => True
     end
  /\ calls Job.findAll w = [(Sql.SELECT [] (Some (Sql.CompanyHandle, Sql.ASC)), [])]
  /\ exists all,
       outcome Job.findAll w = inr (map Sql.job_row all)
       /\ Sorted handle_ascending all /\ Permutation (jobs w) all.
Proof.
  split; [| split; [| split]].
  - rewrite calls_findAllFiltered. unfold assembled, clauses.
    destruct (JS.truthy (JS.get criteria "title")),
             (JS.truthy (JS.get criteria "minSalary")),
             (JS.truthy (JS.get criteria "hasEquity")); simpl; eauto.
  - destruct (outcome (Job.findAllFiltered criteria) w) as [e | [rows |]] eqn:E; trivial.
    apply rows_findAllFiltered in E. destruct E as (bs & _ & ->).
    eexists. split; [reflexivity |].
    apply order_sorted. intros a b. apply precedes_salary_desc.
  - unfold Job.findAll. now rewrite calls_query_then.
  - unfold Job.findAll. rewrite outcome_query_then. simpl.
    eexists. split; [reflexivity |]. split.
    + apply (order_sorted (Sql.CompanyHandle, Sql.ASC)).
      intros a b. apply precedes_handle_asc.
    + rewrite filter_selected_nil. apply sort_perm.
Qed.

(** C1 (the code falls short of it): the title of a row is lowercased, the
    substring searched for is not.  Searching "ENG" sends the pattern
    %ENG% and misses the job "Engineer", which "eng" finds; the query for
    title "eng" and minSalary 50000 is the one the spec gives. *)
Theorem title_substring_is_not_lowercased :
  calls (Job.findAllFiltered [("title", JS.Str "ENG")]) (table [engineer])
  = [(Sql.SELECT [Sql.lower_title_like 1] (Some (Sql.Salary, Sql.DESC)),
      [JS.Str "%ENG%"])]
  /\ outcome (Job.findAllFiltered [("title", JS.Str "ENG")]) (table [engineer])
     = inr (Some [])
  /\ outcome (Job.findAllFiltered [("title", JS.Str "eng")]) (table [engineer])
     = inr (Some [Sql.job_row engineer])
  /\ calls (Job.findAllFiltered [("title", JS.Str "eng"); ("minSalary", num 50000)])
       (table [engineer])
     = [(Sql.SELECT [Sql.lower_title_like 1; Sql.salary_ge 2]
           (Some (Sql.Salary, Sql.DESC)),
         [JS.Str "%eng%"; num 50000])].
Proof. repeat split; reflexivity. Qed.

(** *** An upper-case letter in the pattern matches no lowercased title *)

Lemma lower_ascii_not_upper c : is_upper (Sql.lower_ascii c) = false.
Proof. destruct c as [[] [] [] [] [] [] [] []]; reflexivity. Qed.

Lemma lower_not_upper s d :
  In d (list_ascii_of_string (Sql.lower s)) -> is_upper d = false.
Proof.
  induction s as [| c s IH]; simpl; [contradiction |].
  intros [<- | H]; [apply lower_ascii_not_upper | auto].
Qed.

Lemma upper_is_plain c :
  is_upper c = true ->
  (c =? "%")%char = false /\ (c =? "_")%char = false /\ (c =? "\")%char = false.
Proof. destruct c as [[] [] [] [] [] [] [] []]; simpl; intros H; try discriminate; auto. Qed.

Lemma upper_differs c e : is_upper c = true -> is_upper e = false -> (c =? e)%char = false.
Proof.
  intros Hc He. destruct (Ascii.eqb_spec c e) as [-> |]; [congruence | reflexivity].
Qed.

Lemma like_upper n : forall pattern s,
  List.length pattern <= n ->
  (exists c, In c pattern /\ is_upper c = true) ->
  (forall d, In d s -> is_upper d = false) ->
  Sql.like pattern s = false.
Proof.
  induction n as [| n IH]; intros pattern s Hn (c & Hc & Hup) Hs.
  - destruct pattern; [contradiction | simpl in Hn; lia].
  - destruct pattern as [| a pattern]; [contradiction |].
    simpl in Hn. simpl.
    assert (Hrec : forall s', (forall d, In d s' -> is_upper d = false) ->
                     In c pattern -> Sql.like pattern s' = false).
    { intros s' Hs' Hin. apply IH; [lia | eauto | assumption]. }
    destruct Hc as [-> | Hc].
    + destruct (upper_is_plain c Hup) as (-> & -> & ->).
      destruct s as [| e s]; [reflexivity |].
      rewrite (upper_differs c e Hup); [reflexivity | apply Hs; now left].
    + destruct (a =? "%")%char.
      { clear Hn. induction s as [| e s IHs].
        - rewrite Hrec by assumption. reflexivity.
        - rewrite Hrec by assumption. simpl. apply IHs.
          intros d Hd. apply Hs. now right. }
      destruct (a =? "_")%char.
      { destruct s as [| e s]; [reflexivity |].
        apply Hrec; [| assumption]. intros d Hd. apply Hs. now right. }
      destruct (a =? "\")%char.
      { destruct pattern as [| b pattern]; [reflexivity |].
        destruct s as [| e s]; [reflexivity |].
        destruct Hc as [-> | Hc].
        - rewrite (upper_differs c e Hup); [reflexivity | apply Hs; now left].
        - rewrite (IH pattern s); [apply andb_false_r | simpl in Hn; lia | eauto |].
          intros d Hd. apply Hs. now right. }
      destruct s as [| e s]; [reflexivity |].
      rewrite Hrec; [apply andb_false_r | | assumption].
      intros d Hd. apply Hs. now right.
Qed.

Lemma list_ascii_of_string_app s t :
  list_ascii_of_string (s ++ t) = (list_ascii_of_string s ++ list_ascii_of_string t)%list.
Proof. induction s as [| c s IH]; simpl; [reflexivity | now rewrite IH]. Qed.

Lemma filter_none {A} (f : A -> bool) l :
  (forall x, In x l -> f x = false) -> filter f l = [].
Proof.
  induction l as [| x l IH]; simpl; intros H; [reflexivity |].
  rewrite (H x) by now left. apply IH. intros y Hy. apply H. now right.
Qed.

Lemma holds_upper pattern j :
  (exists c, In c (list_ascii_of_string pattern) /\ is_upper c = true) ->
  Sql.holds (Sql.title_matches (Some pattern)) j = false.
Proof.
  intros H. unfold Sql.holds.
  apply (like_upper _ _ _ (le_n _)); [assumption |].
  intros d. apply lower_not_upper.
Qed.

(** Whatever the table holds, a title substring with an upper-case letter
    in it finds no job. *)
Lemma upper_case_title_finds_nothing criteria w t rows :
  JS.get criteria "title" = JS.Str t ->
  (exists c, In c (list_ascii_of_string t) /\ is_upper c = true) ->
  outcome (Job.findAllFiltered criteria) w = inr (Some rows) ->
  rows = [].
Proof.
  intros Ht (c & Hc & Hup) Hrows.
  apply rows_findAllFiltered in Hrows. destruct Hrows as (bs & Hbs & ->).
  assert (Htruthy : JS.truthy (JS.get criteria "title") = true).
  { rewrite Ht. destruct t; [contradiction | reflexivity]. }
  unfold assembled, clauses in Hbs. rewrite Htruthy, Ht in Hbs.
  simpl in Hbs.
  destruct (Sql.well_formed_pattern _); simpl in Hbs; [| discriminate].
  destruct (Sql.all_ok _ _) as [e | bs']; simpl in Hbs; [discriminate |].
  injection Hbs as <-.
  rewrite filter_none; [reflexivity |].
  intros j _. unfold Sql.selected. cbn [forallb].
  rewrite holds_upper; [reflexivity |].
  exists c. split; [| assumption]. right.
  rewrite list_ascii_of_string_app. apply in_or_app. now left.
Qed.

(** C2, refuted as stated: with title "eng" and the number 0 for
    minSalary, minSalary is present, yet the query has the title predicate
    alone and its parameters are ["%eng%"]. *)
Lemma zero_minSalary_is_dropped :
  In "minSalary" (JS.keys [("title", JS.Str "eng"); ("minSalary", num 0)])
  /\ calls (Job.findAllFiltered [("title", JS.Str "eng"); ("minSalary", num 0)]) testJobs
     = [(Sql.SELECT [Sql.lower_title_like 1] (Some (Sql.Salary, Sql.DESC)),
         [JS.Str "%eng%"])]
  /\ ~ salary_predicate_whenever_present.
Proof.
  split; [simpl; tauto |]. split; [reflexivity |].
  intros H.
  destruct (H [("title", JS.Str "eng"); ("minSalary", num 0)] testJobs)
    as (conds & o & params & p & Hcalls & Hin & _); [simpl; tauto |].
  injection Hcalls as <- _ _.
  destruct Hin as [Hin | []]. discriminate.
Qed.

Ltac not_in_conds :=
  let H := fresh in
  intros H; simpl in H;
  repeat (destruct H as [H | H]; [discriminate |]); contradiction.

Ltac sent :=
  do 3 eexists; split; [reflexivity | split; [simpl; eauto 6 | reflexivity]].

Ltac not_sent :=
  let H := fresh in
  intros ? ? ? ? H; simpl in H;
  first [contradiction | destruct H as [H | []]; injection H as <- _ _; not_in_conds].

(** C2, amended: each of the three criteria is tested by truthiness, on
    its own.  A truthy minSalary gives the predicate [salary >= $p] with
    minSalary as parameter [p], a truthy title the predicate
    [LOWER(jobs.title) LIKE $p] with [%title%], a truthy hasEquity the
    predicate [equity != $p] with 0, each in the single query made, which is
    ordered by salary; a falsy criterion gives no predicate of its own; and
    every query has as many conditions as parameters. *)
Theorem no_predicate_of_a_truthy_criterion_is_dropped criteria w :
  (if JS.truthy (JS.get criteria "minSalary")
   then sends (Job.findAllFiltered criteria) w
          Sql.salary_ge (JS.get criteria "minSalary")
   else sends_no (Job.findAllFiltered criteria) w Sql.salary_ge)
  /\ (if JS.truthy (JS.get criteria "title")
      then sends (Job.findAllFiltered criteria) w
             Sql.lower_title_like (Job.contains (JS.get criteria "title"))
      else sends_no (Job.findAllFiltered criteria) w Sql.lower_title_like)
  /\ (if JS.truthy (JS.get criteria "hasEquity")
      then sends (Job.findAllFiltered criteria) w Sql.equity_ne Job.zero
      else sends_no (Job.findAllFiltered criteria) w Sql.equity_ne)
  /\ (forall conds order_by params,
        In (Sql.SELECT conds order_by, params) (calls (Job.findAllFiltered criteria) w) ->
        List.length conds = List.length params).
Proof.
  unfold sends, sends_no. rewrite calls_findAllFiltered. unfold assembled, clauses.
  destruct (JS.truthy (JS.get criteria "title")),
           (JS.truthy (JS.get criteria "minSalary")),
           (JS.truthy (JS.get criteria "hasEquity"));
    cbn [app map fst snd numbered];
    (split; [| split; [| split]]);
    try sent; try not_sent;
    intros conds o params H; simpl in H;
    try contradiction; destruct H as [H | []]; injection H as <- _ <-; reflexivity.
Qed.

(** ** The rows a filtered listing returns *)

(** Every job returned is in the table and satisfies each condition of the
    query, its placeholder bound to its parameter. *)
Lemma returned_rows_hold criteria w rows j cond :
  outcome (Job.findAllFiltered criteria) w = inr (Some rows) ->
  In (Sql.job_row j) rows ->
  In cond (numbered 1 (map fst (clauses criteria))) ->
  In j (jobs w)
  /\ exists b, Sql.bind (map snd (clauses criteria)) cond = inr b /\ Sql.holds b j = true.
Proof.
  intros Hrows Hj Hcond.
  apply rows_findAllFiltered in Hrows. destruct Hrows as (bs & Hbs & ->).
  apply in_map_iff in Hj. destruct Hj as (j' & Heq & Hj). injection Heq as ->.
  apply (Permutation_in _ (Permutation_sym (order_perm _ _))) in Hj.
  apply filter_In in Hj. destruct Hj as (Hin & Hsel).
  split; [assumption |].
  destruct (all_ok_In _ _ _ _ Hbs Hcond) as (b & Hb & Hbin).
  exists b. split; [exact Hb |].
  unfold Sql.selected in Hsel. rewrite forallb_forall in Hsel. now apply Hsel.
Qed.

Lemma differs_from_zero j :
  Sql.holds (Sql.equity_differs (dec 0 0)) j = true ->
  exists e, Sql.equity j = Some e /\ Sql.unscaled e <> 0%Z.
Proof.
  unfold Sql.holds, dec. destruct (Sql.equity j) as [e |]; [| discriminate].
  intros H. exists e. split; [reflexivity |].
  intros Hz. unfold Sql.decimal_eqb, Sql.decimal_compare in H.
  rewrite Hz in H. simpl in H. discriminate.
Qed.

(** C6, refuted as stated: with hasEquity true, a job whose equity is -0.5
    comes back. *)
Lemma negative_equity_is_returned :
  outcome (Job.findAllFiltered [("hasEquity", JS.Bool true)]) (table [J1; underwater])
  = inr (Some [Sql.job_row underwater])
  /\ Sql.equity underwater = dec (-5) 1
  /\ ~ hasEquity_returns_positive_equity_only.
Proof.
  split; [reflexivity |]. split; [reflexivity |].
  intros H.
  destruct (H [("hasEquity", JS.Bool true)] (table [J1; underwater])
              [Sql.job_row underwater] underwater eq_refl eq_refl (or_introl eq_refl))
    as (e & He & Hpos).
  injection He as <-. unfold positive in Hpos. simpl in Hpos. lia.
Qed.

Lemma truthy_hasEquity_adds_predicate criteria w :
  JS.truthy (JS.get criteria "hasEquity") = true ->
  exists conds params,
    calls (Job.findAllFiltered criteria) w
    = [(Sql.SELECT conds (Some (Sql.Salary, Sql.DESC)), (params ++ [num 0])%list)]
    /\ In (Sql.equity_ne (S (List.length params))) conds.
Proof.
  intros Heq.
  rewrite calls_findAllFiltered. unfold assembled, clauses. rewrite Heq.
  destruct (JS.truthy (JS.get criteria "title")),
           (JS.truthy (JS.get criteria "minSalary")); simpl.
  - exists [Sql.lower_title_like 1; Sql.salary_ge 2; Sql.equity_ne 3].
    exists [Job.contains (JS.get criteria "title"); JS.get criteria "minSalary"].
    simpl; auto.
  - exists [Sql.lower_title_like 1; Sql.equity_ne 2].
    exists [Job.contains (JS.get criteria "title")]. simpl; auto.
  - exists [Sql.salary_ge 1; Sql.equity_ne 2].
    exists [JS.get criteria "minSalary"]. simpl; auto.
  - exists [Sql.equity_ne 1]. exists []. simpl; auto.
Qed.

(** C6, amended: a truthy hasEquity adds the predicate [equity != $p] with
    the literal 0 as the last parameter ([{hasEquity: true}] alone gives that
    predicate and the parameters [0]); every job returned has an equity that
    is not null and differs from zero, which is strictly greater than zero
    when no stored equity is negative; a falsy or absent hasEquity adds no
    equity predicate. *)
Theorem truthy_hasEquity_filters_nonzero_equity criteria w :
  JS.truthy (JS.get criteria "hasEquity") = true ->
  (exists conds params,
      calls (Job.findAllFiltered criteria) w
      = [(Sql.SELECT conds (Some (Sql.Salary, Sql.DESC)), (params ++ [num 0])%list)]
      /\ In (Sql.equity_ne (S (List.length params))) conds)
  /\ calls (Job.findAllFiltered [("hasEquity", JS.Bool true)]) w
     = [(Sql.SELECT [Sql.equity_ne 1] (Some (Sql.Salary, Sql.DESC)), [num 0])]
  /\ (forall rows j,
        outcome (Job.findAllFiltered criteria) w = inr (Some rows) ->
        In (Sql.job_row j) rows ->
        In j (jobs w)
        /\ exists e, Sql.equity j = Some e /\ Sql.unscaled e <> 0%Z
             /\ ((forall j' e', In j' (jobs w) -> Sql.equity j' = Some e' ->
                                (0 <= Sql.unscaled e')%Z) -> positive e))
  /\ (forall criteria' conds order_by params p,
        JS.truthy (JS.get criteria' "hasEquity") = false ->
        In (Sql.SELECT conds order_by, params) (calls (Job.findAllFiltered criteria') w) ->
        ~ In (Sql.equity_ne p) conds).
Proof.
  intros Heq. split; [| split; [| split]].
  - now apply truthy_hasEquity_adds_predicate.
  - rewrite calls_findAllFiltered. reflexivity.
  - intros rows j Hrows Hj.
    assert (Hcond : exists p,
               In (Sql.equity_ne p) (numbered 1 (map fst (clauses criteria)))
               /\ Sql.param (map snd (clauses criteria)) p = inr (num 0)).
    { unfold clauses. rewrite Heq.
      destruct (JS.truthy (JS.get criteria "title")),
               (JS.truthy (JS.get criteria "minSalary")); simpl;
        [exists 3 | exists 2 | exists 2 | exists 1]; simpl; auto. }
    destruct Hcond as (p & Hp & Hparam).
    destruct (returned_rows_hold _ _ _ _ _ Hrows Hj Hp) as (Hin & b & Hb & Hholds).
    split; [assumption |].
    simpl in Hb. rewrite Hparam in Hb. simpl in Hb. injection Hb as <-.
    destruct (differs_from_zero _ Hholds) as (e & He & Hne).
    exists e. repeat split; try assumption.
    intros Hall. specialize (Hall j e Hin He). unfold positive. lia.
  - intros criteria' conds o params p Hfalsy. rewrite calls_findAllFiltered.
    unfold assembled, clauses. rewrite Hfalsy.
    destruct (JS.truthy (JS.get criteria' "title")),
             (JS.truthy (JS.get criteria' "minSalary")); simpl;
      intros H; try contradiction;
      destruct H as [H | []]; injection H as <- _ _; not_in_conds.
Qed.

Lemma truthy_hasEquity_filters_nonzero_equity_witness :
  JS.truthy (JS.get [("hasEquity", JS.Str "yes")] "hasEquity") = true
  /\ calls (Job.findAllFiltered [("hasEquity", JS.Bool true)]) testJobs
     = [(Sql.SELECT [Sql.equity_ne 1] (Some (Sql.Salary, Sql.DESC)), [num 0])]
  /\ forall j,
      In (Sql.job_row j) [Sql.job_row J3; Sql.job_row J2] ->
      exists e, Sql.equity j = Some e /\ Sql.unscaled e <> 0%Z.
Proof.
  split; [reflexivity |].
  destruct (truthy_hasEquity_filters_nonzero_equity
              [("hasEquity", JS.Str "yes")] testJobs eq_refl)
    as (_ & Halone & Hrows & _).
  split; [exact Halone |].
  intros j Hj.
  destruct (Hrows [Sql.job_row J3; Sql.job_row J2] j eq_refl Hj)
    as (_ & e & He & Hne & _).
  exists e. auto.
Defined.

(** ** GET /jobs *)

Ltac keys_ok :=
  repeat first [apply Forall_nil | apply Forall_cons];
  unfold allowed, updatable; intuition reflexivity.

Lemma includes_allowed key :
  allowed key -> routes.includes ["title"; "minSalary"; "hasEquity"] key = true.
Proof. intros [-> | [-> | ->]]; reflexivity. Qed.

Lemma for_of_allowed (l : list string) (e : error) w :
  Forall allowed l ->
  routes.for_of l
    (fun value =>
       if negb (routes.includes ["title"; "minSalary"; "hasEquity"] value)
       then throw e else ret tt) w
  = (inr tt, w).
Proof.
  induction 1 as [| key l Hkey Hl IH]; [reflexivity |].
  cbn [routes.for_of]. unfold bind at 1.
  rewrite (includes_allowed key Hkey). exact IH.
Qed.

(** With at least one key and allowed keys only, the handler answers with
    what the filtered listing returns and passes on what it throws. *)
Lemma get_jobs_filtered query w :
  query <> [] ->
  Forall allowed (JS.keys query) ->
  routes.get_jobs query w =
  match Job.findAllFiltered query w with
  | (inl err, w') => (routes.next err, w')
  | (inr jobs, w') => (routes.json jobs, w')
  end.
Proof.
  intros Hne Hkeys. unfold routes.get_jobs, routes.get_jobs_body.
  destruct query as [| kv query]; [congruence |].
  cbn [JS.keys map List.length Nat.eqb Nat.ltb Nat.leb].
  unfold bind at 1. change (fst kv :: map fst query) with (JS.keys (kv :: query)).
  rewrite for_of_allowed by assumption.
  unfold bind. destruct (Job.findAllFiltered (kv :: query) w) as [[e | jobs] w']; reflexivity.
Qed.

Lemma falsy_string s : JS.truthy (JS.Str s) = false <-> s = "".
Proof.
  simpl. destruct (String.eqb_spec s ""); simpl; split; congruence.
Qed.

Lemma findAllFiltered_all_falsy criteria w :
  falsy criteria "title" -> falsy criteria "minSalary" -> falsy criteria "hasEquity" ->
  Job.findAllFiltered criteria w = (inr None, w).
Proof.
  unfold falsy, Job.findAllFiltered. intros -> -> ->. reflexivity.
Qed.

(** C8, refuted as stated: [?minSalary=0] brings the string "0", which is
    truthy; the salary query runs and the jobs come back. *)
Lemma minSalary_0_in_the_query_string_is_truthy :
  JS.truthy (JS.Str "0") = true
  /\ routes.get_jobs [("minSalary", JS.Str "0")] testJobs
     = (routes.json (Some [Sql.job_row J3; Sql.job_row J2; Sql.job_row J1]),
        {| jobs := [J1; J2; J3];
           queries := [(Sql.SELECT [Sql.salary_ge 1] (Some (Sql.Salary, Sql.DESC)),
                        [JS.Str "0"])] |})
  /\ ~ falsy_values_reach_no_branch.
Proof.
  split; [reflexivity |]. split; [reflexivity |].
  intros (_ & _ & H). specialize (H testJobs). discriminate H.
Qed.

(** C8, amended: with all three criteria absent or falsy the filtered
    listing takes no branch, makes no query and returns [undefined];
    [GET /jobs] gets there whenever the query string is not empty, has
    allowed keys only and every value is falsy, which for a string means
    empty (as in [?title=]). *)
Theorem all_falsy_takes_no_branch criteria w :
  falsy criteria "title" -> falsy criteria "minSalary" -> falsy criteria "hasEquity" ->
  Job.findAllFiltered criteria w = (inr None, w)
  /\ calls (Job.findAllFiltered criteria) w = []
  /\ (criteria <> [] -> Forall allowed (JS.keys criteria) ->
      routes.get_jobs criteria w = (routes.json None, w))
  /\ (forall s, JS.truthy (JS.Str s) = false <-> s = "")
  /\ routes.get_jobs [("title", JS.Str "")] w = (routes.json None, w).
Proof.
  intros Ht Hm He.
  pose proof (findAllFiltered_all_falsy criteria w Ht Hm He) as Hnone.
  split; [exact Hnone |]. split; [| split; [| split]].
  - unfold calls. rewrite Hnone. apply skipn_all.
  - intros Hne Hkeys. rewrite get_jobs_filtered by assumption. now rewrite Hnone.
  - exact falsy_string.
  - reflexivity.
Qed.

Lemma all_falsy_takes_no_branch_witness :
  routes.get_jobs [("title", JS.Str ""); ("minSalary", JS.Str "")] testJobs
  = (routes.json None, testJobs).
Proof.
  refine (proj1 (proj2 (proj2
    (all_falsy_takes_no_branch [("title", JS.Str ""); ("minSalary", JS.Str "")] testJobs
       eq_refl eq_refl eq_refl))) _ _).
  - discriminate.
  - keys_ok.
Defined.

Lemma calls_get_jobs query w :
  query <> [] ->
  Forall allowed (JS.keys query) ->
  calls (routes.get_jobs query) w = calls (Job.findAllFiltered query) w.
Proof.
  intros Hne Hkeys. unfold calls. rewrite get_jobs_filtered by assumption.
  destruct (Job.findAllFiltered query w) as [[e | jobs] w']; reflexivity.
Qed.

Lemma falsy_hasEquity_adds_no_predicate criteria w :
  JS.truthy (JS.get criteria "hasEquity") = false ->
  sends_no (Job.findAllFiltered criteria) w Sql.equity_ne.
Proof.
  intros Hfalsy conds o params p. rewrite calls_findAllFiltered.
  unfold assembled, clauses. rewrite Hfalsy.
  destruct (JS.truthy (JS.get criteria "title")),
           (JS.truthy (JS.get criteria "minSalary")); simpl;
    intros H; try contradiction;
    destruct H as [H | []]; injection H as <- _ _; not_in_conds.
Qed.

(** C9, refuted as stated: [?title=j&hasEquity=] has allowed keys and a
    hasEquity that is present and falsy; the query sent has the title
    predicate alone, and J1, whose equity is 0, comes back. *)
Lemma empty_hasEquity_is_present_and_false :
  In ("hasEquity", JS.Str "") [("title", JS.Str "j"); ("hasEquity", JS.Str "")]
  /\ JS.truthy (JS.Str "") = false
  /\ calls (routes.get_jobs [("title", JS.Str "j"); ("hasEquity", JS.Str "")]) testJobs
     = [(Sql.SELECT [Sql.lower_title_like 1] (Some (Sql.Salary, Sql.DESC)),
         [JS.Str "%j%"])]
  /\ outcome (routes.get_jobs [("title", JS.Str "j"); ("hasEquity", JS.Str "")]) testJobs
     = routes.json (Some [Sql.job_row J3; Sql.job_row J2; Sql.job_row J1])
  /\ Sql.equity J1 = dec 0 0
  /\ ~ present_hasEquity_is_never_false.
Proof.
  split; [simpl; tauto |]. split; [reflexivity |]. split; [reflexivity |].
  split; [reflexivity |]. split; [reflexivity |].
  intros H.
  destruct (H [("title", JS.Str "j"); ("hasEquity", JS.Str "")] testJobs "")
    as (conds & params & p & Hcalls & Hin & _); [keys_ok | simpl; tauto |].
  injection Hcalls as <- _.
  destruct Hin as [Hin | []]. discriminate.
Qed.

(** C9, amended: the handler passes the query-string values on as they
    are, and a string is truthy unless empty; so every non-empty string
    given for hasEquity, "false" and "0" like any other, puts the predicate
    [equity != $p] with the parameter 0, the last one, in the query; the
    empty string ([?hasEquity=]) is the one present value that is false, and
    it puts no equity predicate in any query. *)
Theorem hasEquity_string_is_active_unless_empty query w s :
  Forall allowed (JS.keys query) ->
  JS.get query "hasEquity" = JS.Str s ->
  (JS.truthy (JS.Str s) = false <-> s = "")
  /\ (s <> "" ->
      exists conds params,
        calls (routes.get_jobs query) w
        = [(Sql.SELECT conds (Some (Sql.Salary, Sql.DESC)), (params ++ [num 0])%list)]
        /\ In (Sql.equity_ne (S (List.length params))) conds)
  /\ (s = "" -> sends_no (routes.get_jobs query) w Sql.equity_ne).
Proof.
  intros Hkeys Hget.
  assert (Hne : query <> []) by (intros ->; discriminate Hget).
  split; [apply falsy_string |]. split.
  - intros Hs.
    assert (Htruthy : JS.truthy (JS.get query "hasEquity") = true).
    { rewrite Hget. destruct (JS.truthy (JS.Str s)) eqn:E; [reflexivity |].
      apply falsy_string in E. contradiction. }
    rewrite calls_get_jobs by assumption.
    now apply truthy_hasEquity_adds_predicate.
  - intros ->. unfold sends_no. rewrite calls_get_jobs by assumption.
    apply falsy_hasEquity_adds_no_predicate. now rewrite Hget.
Qed.

Lemma hasEquity_string_is_active_unless_empty_witness :
  (exists conds params,
      calls (routes.get_jobs [("title", JS.Str "j"); ("hasEquity", JS.Str "false")]) testJobs
      = [(Sql.SELECT conds (Some (Sql.Salary, Sql.DESC)), (params ++ [num 0])%list)]
      /\ In (Sql.equity_ne (S (List.length params))) conds)
  /\ sends_no (routes.get_jobs [("title", JS.Str "j"); ("hasEquity", JS.Str "")]) testJobs
       Sql.equity_ne.
Proof.
  split.
  - refine (proj1 (proj2 (hasEquity_string_is_active_unless_empty
                            [("title", JS.Str "j"); ("hasEquity", JS.Str "false")]
                            testJobs "false" _ eq_refl)) _).
    + keys_ok.
    + discriminate.
  - refine (proj2 (proj2 (hasEquity_string_is_active_unless_empty
                            [("title", JS.Str "j"); ("hasEquity", JS.Str "")]
                            testJobs "" _ eq_refl)) eq_refl).
    keys_ok.
Defined.

(** ** A SET clause reads back as the assignments it was built from *)

Lemma append_assoc (a b c : string) : (a ++ b) ++ c = a ++ (b ++ c).
Proof. induction a as [| x a IH]; simpl; [reflexivity | now rewrite IH]. Qed.

Lemma append_empty_r (a : string) : a ++ "" = a.
Proof. induction a as [| x a IH]; simpl; [reflexivity | now rewrite IH]. Qed.

Lemma length_append (a b : string) :
  String.length (a ++ b) = String.length a + String.length b.
Proof. induction a as [| x a IH]; simpl; [reflexivity | now rewrite IH]. Qed.

Lemma no_digit_ahead rest :
  JS.starts_with JS.is_digit rest = false ->
  Sql.take_while JS.is_digit rest = "" /\ JS.skip_while JS.is_digit rest = rest.
Proof.
  destruct rest as [| c rest]; simpl; [auto |]. intros ->. auto.
Qed.

Lemma digits_then (d : Decimal.uint) rest :
  JS.starts_with JS.is_digit rest = false ->
  Sql.take_while JS.is_digit (NilEmpty.string_of_uint d ++ rest)
  = NilEmpty.string_of_uint d
  /\ JS.skip_while JS.is_digit (NilEmpty.string_of_uint d ++ rest) = rest.
Proof.
  intros Hrest. induction d as [| d [IH1 IH2] | d [IH1 IH2] | d [IH1 IH2] | d [IH1 IH2]
                                | d [IH1 IH2] | d [IH1 IH2] | d [IH1 IH2] | d [IH1 IH2]
                                | d [IH1 IH2] | d [IH1 IH2]];
    [now apply no_digit_ahead | ..];
    cbn [NilEmpty.string_of_uint append Sql.take_while JS.skip_while];
    (replace (JS.is_digit _) with true by reflexivity);
    now rewrite IH1, IH2.
Qed.

Lemma digits_value_uint (d : Decimal.uint) : forall acc,
  Sql.digits_value (Z.of_nat acc) (NilEmpty.string_of_uint d)
  = Z.of_nat (Nat.of_uint_acc d acc).
Proof.
  induction d; intros acc; cbn [NilEmpty.string_of_uint Sql.digits_value Nat.of_uint_acc];
    [reflexivity | ..];
    rewrite <- IHd; f_equal; rewrite Nat.tail_mul_spec;
    match goal with
    | |- context [nat_of_ascii ?c] =>
      let v := eval vm_compute in (nat_of_ascii c) in
      change (nat_of_ascii c) with v
    end; lia.
Qed.

Lemma digits_value_string_of_nat n :
  Z.to_nat (Sql.digits_value 0 (Sql.string_of_nat n)) = n.
Proof.
  unfold Sql.string_of_nat.
  pose proof (digits_value_uint (Nat.to_uint n) 0) as H.
  change (Z.of_nat 0) with 0%Z in H. rewrite H.
  change (Nat.of_uint_acc (Nat.to_uint n) 0) with (Nat.of_uint (Nat.to_uint n)).
  rewrite DecimalNat.Unsigned.of_to. apply Nat2Z.id.
Qed.

Lemma string_of_nat_starts_with_digit n rest :
  JS.starts_with JS.is_digit (Sql.string_of_nat n ++ rest) = true.
Proof.
  unfold Sql.string_of_nat.
  pose proof (DecimalNat.Unsigned.of_to n) as H.
  destruct (Nat.to_uint n) eqn:E; try reflexivity.
  simpl in H. subst n. discriminate E.
Qed.

Lemma parse_placeholder_string_of_nat n rest :
  JS.starts_with JS.is_digit rest = false ->
  Sql.parse_placeholder ("$" ++ Sql.string_of_nat n ++ rest) = Some (n, rest).
Proof.
  intros Hrest. cbn [append Sql.parse_placeholder].
  rewrite string_of_nat_starts_with_digit.
  unfold Sql.string_of_nat at 1 2.
  destruct (digits_then (Nat.to_uint n) rest Hrest) as [-> ->].
  fold (Sql.string_of_nat n). now rewrite digits_value_string_of_nat.
Qed.

Lemma name_then_quote name rest :
  unquoted name ->
  Sql.take_while (fun c => negb (Sql.is_quote c)) (name ++ Sql.quote ++ rest) = name
  /\ JS.skip_while (fun c => negb (Sql.is_quote c)) (name ++ Sql.quote ++ rest)
     = Sql.quote ++ rest.
Proof.
  induction name as [| c name IH]; intros Hname; [auto |].
  cbn [append Sql.take_while JS.skip_while].
  rewrite (Hname c) by now left. cbn [negb].
  destruct IH as [-> ->]; [| auto].
  intros d Hd. apply Hname. now right.
Qed.

Lemma parse_assignment_fragment name n rest :
  unquoted name ->
  JS.starts_with JS.is_digit rest = false ->
  Sql.parse_assignment
    (Sql.quote ++ name ++ Sql.quote ++ "=$" ++ Sql.string_of_nat n ++ rest)
  = Some ((name, n), rest).
Proof.
  intros Hname Hrest.
  change (Sql.quote ++ name ++ Sql.quote ++ "=$" ++ Sql.string_of_nat n ++ rest)
    with (String "034" (name ++ Sql.quote ++ "=$" ++ Sql.string_of_nat n ++ rest)).
  cbn [Sql.parse_assignment]. replace (Sql.is_quote "034") with true by reflexivity.
  destruct (name_then_quote name ("=$" ++ Sql.string_of_nat n ++ rest) Hname) as [-> ->].
  change (Sql.quote ++ "=$" ++ Sql.string_of_nat n ++ rest)
    with (String "034" (String "=" ("$" ++ Sql.string_of_nat n ++ rest))).
  cbv iota. now rewrite parse_placeholder_string_of_nat.
Qed.

Lemma fragment_assoc name n rest :
  (Sql.quote ++ name ++ Sql.quote ++ "=$" ++ Sql.string_of_nat n) ++ rest
  = Sql.quote ++ name ++ Sql.quote ++ "=$" ++ Sql.string_of_nat n ++ rest.
Proof. now rewrite !append_assoc. Qed.

Lemma parse_assignments_cols jsToSql keys : forall idx fuel,
  keys <> [] ->
  List.length keys <= fuel ->
  Forall (fun k => unquoted (column_for jsToSql k)) keys ->
  Sql.parse_assignments fuel (String.concat ", " (cols jsToSql idx keys))
  = Some (combine (map (column_for jsToSql) keys) (seq idx (List.length keys))).
Proof.
  induction keys as [| k keys IH]; intros idx fuel Hne Hfuel Hq; [congruence |].
  inversion Hq as [| ? ? Hk Hkeys]; subst.
  destruct fuel as [| fuel]; [simpl in Hfuel; lia |].
  destruct keys as [| k' keys].
  - cbn [cols String.concat Sql.parse_assignments].
    rewrite <- (append_empty_r (Sql.quote ++ _)), fragment_assoc.
    now rewrite parse_assignment_fragment.
  - change (cols jsToSql idx (k :: k' :: keys))
      with ((Sql.quote ++ column_for jsToSql k ++ Sql.quote ++ "=$" ++ Sql.string_of_nat idx)
              :: cols jsToSql (S idx) (k' :: keys)).
    remember (k' :: keys) as rest eqn:Erest.
    assert (Hcons : exists f fs, cols jsToSql (S idx) rest = f :: fs).
    { subst rest. simpl. eauto. }
    destruct Hcons as (f & fs & Ecols).
    cbn [String.concat]. rewrite Ecols. rewrite <- Ecols.
    rewrite fragment_assoc. cbn [Sql.parse_assignments].
    rewrite parse_assignment_fragment by (assumption || reflexivity).
    cbn [append]. rewrite IH; [reflexivity | subst; discriminate | | assumption].
    simpl in Hfuel. lia.
Qed.

Lemma length_concat_cols jsToSql keys : forall idx,
  List.length keys <= String.length (String.concat ", " (cols jsToSql idx keys)).
Proof.
  induction keys as [| k keys IH]; intros idx; [simpl; lia |].
  destruct keys as [| k' keys].
  - cbn [cols String.concat]. rewrite length_append. simpl. lia.
  - specialize (IH (S idx)).
    change (cols jsToSql idx (k :: k' :: keys))
      with ((Sql.quote ++ column_for jsToSql k ++ Sql.quote ++ "=$" ++ Sql.string_of_nat idx)
              :: cols jsToSql (S idx) (k' :: keys)).
    remember (k' :: keys) as rest eqn:Erest.
    assert (Hcons : exists f fs, cols jsToSql (S idx) rest = f :: fs).
    { subst rest. simpl. eauto. }
    destruct Hcons as (f & fs & Ecols).
    cbn [String.concat]. rewrite Ecols. rewrite <- Ecols.
    rewrite !length_append. simpl String.length at 1.
    replace (List.length (k :: rest)) with (S (List.length rest)) by reflexivity. lia.
Qed.

(** The SET clause of a payload reads back as one assignment per key, to
    the column of the key, with the placeholders 1, 2, ... in key order. *)
Lemma parse_set_cols jsToSql keys :
  keys <> [] ->
  Forall (fun k => unquoted (column_for jsToSql k)) keys ->
  Sql.parse_set (String.concat ", " (cols jsToSql 1 keys))
  = Some (combine (map (column_for jsToSql) keys) (seq 1 (List.length keys))).
Proof.
  intros Hne Hq. unfold Sql.parse_set.
  apply parse_assignments_cols; [assumption | apply length_concat_cols | assumption].
Qed.

(** ** The partial-update builder *)

Lemma cols_length jsToSql idx keys :
  List.length (cols jsToSql idx keys) = List.length keys.
Proof.
  revert idx. induction keys as [| k keys IH]; intros idx; simpl; [reflexivity |].
  now rewrite IH.
Qed.

Lemma cols_nth jsToSql keys : forall idx i k,
  nth_error keys i = Some k ->
  nth_error (cols jsToSql idx keys) i
  = Some (Sql.quote ++ column_for jsToSql k ++ Sql.quote ++ "=$"
            ++ Sql.string_of_nat (idx + i)).
Proof.
  induction keys as [| k' keys IH]; intros idx i k H.
  - destruct i; discriminate.
  - destruct i as [| i]; simpl in *.
    + injection H as ->. now rewrite Nat.add_0_r.
    + rewrite (IH (S idx) i k H). now rewrite Nat.add_succ_r.
Qed.

Lemma nth_error_keys (P : JS.object) i k v :
  nth_error P i = Some (k, v) -> nth_error (JS.keys P) i = Some k.
Proof. intros H. unfold JS.keys. now rewrite nth_error_map, H. Qed.

Lemma nth_error_values (P : JS.object) i k v :
  nth_error P i = Some (k, v) -> nth_error (JS.values P) i = Some v.
Proof. intros H. unfold JS.values. now rewrite nth_error_map, H. Qed.

Lemma sqlForPartialUpdate_nonempty P A :
  P <> [] ->
  sqlForPartialUpdate P A
  = inr {| setCols := String.concat ", " (cols A 1 (JS.keys P)); values := JS.values P |}.
Proof. destruct P; [congruence | reflexivity]. Qed.

(** C3: for a payload with at least one key and any alias map, the values
    are those of the payload, as many as it has keys, in key order and
    untouched; the SET clause is the comma-joined list of one fragment per
    key, the i-th being the quoted column, [=$] and i, where the column is
    the alias of the key if it has one and the key itself otherwise.  When
    no column has a double quote in its name, the clause reads back as
    these assignments, with the placeholders 1 to N once each. *)
Theorem partial_update_follows_key_order (P : JS.object) (A : list (string * string)) :
  P <> [] ->
  exists r fragments,
    sqlForPartialUpdate P A = inr r
    /\ List.length (values r) = List.length (JS.keys P)
    /\ values r = map snd P
    /\ setCols r = String.concat ", " fragments
    /\ List.length fragments = List.length (JS.keys P)
    /\ (forall i k v,
          nth_error P i = Some (k, v) ->
          nth_error (values r) i = Some v
          /\ nth_error fragments i
             = Some (Sql.quote
                       ++ match lookup A k with Some column => column | None => k end
                       ++ Sql.quote ++ "=$" ++ Sql.string_of_nat (i + 1)))
    /\ (Forall (fun k => unquoted (column_for A k)) (JS.keys P) ->
        Sql.parse_set (setCols r)
        = Some (combine (map (column_for A) (JS.keys P))
                        (seq 1 (List.length (JS.keys P))))).
Proof.
  intros HP. eexists. exists (cols A 1 (JS.keys P)).
  split; [now apply sqlForPartialUpdate_nonempty |]. simpl.
  split; [unfold JS.values, JS.keys; now rewrite !length_map |].
  split; [reflexivity |]. split; [reflexivity |].
  split; [apply cols_length |]. split.
  - intros i k v H. split; [now apply (nth_error_values P i k) |].
    rewrite (cols_nth A (JS.keys P) 1 i k (nth_error_keys P i k v H)).
    now rewrite Nat.add_comm.
  - apply parse_set_cols. destruct P; [congruence | discriminate].
Qed.

(** The case of [helpers/sql.test.js]. *)
Lemma partial_update_follows_key_order_witness :
  exists r,
    sqlForPartialUpdate
      [("name", JS.Str "Bauer-Gallagher");
       ("description", JS.Str "Difficult ready trip question produce produce someone.");
       ("numEmployees", num 1000)]
      [("numEmployees", "num_employees"); ("logoUrl", "logo_url")] = inr r
    /\ setCols r
       = Sql.quote ++ "name" ++ Sql.quote ++ "=$1, "
         ++ Sql.quote ++ "description" ++ Sql.quote ++ "=$2, "
         ++ Sql.quote ++ "num_employees" ++ Sql.quote ++ "=$3"
    /\ values r
       = [JS.Str "Bauer-Gallagher";
          JS.Str "Difficult ready trip question produce produce someone.";
          num 1000].
Proof.
  destruct (partial_update_follows_key_order
              [("name", JS.Str "Bauer-Gallagher");
               ("description", JS.Str "Difficult ready trip question produce produce someone.");
               ("numEmployees", num 1000)]
              [("numEmployees", "num_employees"); ("logoUrl", "logo_url")])
    as (r & fragments & Hr & _ & Hvalues & _); [discriminate |].
  exists r. split; [exact Hr |].
  injection Hr as <-. split; reflexivity.
Defined.

(** C4, refuted as stated: for the id "nope" the empty update is not a bad
    request; the id is rejected first, as not found, status 404. *)
Lemma empty_update_with_bad_id_is_not_found :
  Job.update (JS.Str "nope") [] testJobs
  = (inl (NotFoundError "Invalid Job ID: nope"), testJobs)
  /\ http_status (NotFoundError "Invalid Job ID: nope") = 404
  /\ ~ empty_update_is_bad_request_for_every_id.
Proof.
  split; [reflexivity |]. split; [reflexivity |].
  intros (_ & H). destruct (H (JS.Str "nope") testJobs) as (e & He & Hclass & _).
  injection He as <-. discriminate.
Qed.

(** C4, amended: the builder rejects the empty payload as a bad request
    whatever the alias map; [Job.update(id, {})] throws that error, status
    400, for every id that [isNaN] accepts, touching nothing; an id that is
    not a number is rejected before, as not found, status 404. *)
Theorem empty_update_is_bad_request_for_numeric_id
  (jsToSql : list (string * string)) (id : JS.value) (w : world) :
  (exists e, sqlForPartialUpdate [] jsToSql = inl e
             /\ class_of e = BadRequest /\ http_status e = 400)
  /\ exists e,
      Job.update id [] w = (inl e, w)
      /\ class_of e = (if JS.isNaN id then NotFound else BadRequest)
      /\ http_status e = (if JS.isNaN id then 404 else 400).
Proof.
  split.
  - eexists. repeat split; reflexivity.
  - unfold Job.update. destruct (JS.isNaN id); eexists; repeat split; reflexivity.
Qed.

(** ** Identifiers *)

Lemma id_is_holds_none m l :
  (forall j, In j l -> Some (Sql.id j) <> m) ->
  filter (Sql.holds (Sql.id_is m)) l = [].
Proof.
  intros H. apply filter_none. intros j Hj. specialize (H j Hj).
  destruct m as [n |]; simpl; [| reflexivity].
  destruct (Z.eqb_spec (Sql.id j) n); congruence.
Qed.

Lemma selected_one b l : filter (Sql.selected [b]) l = filter (Sql.holds b) l.
Proof.
  apply filter_ext. intros j. unfold Sql.selected. simpl. apply andb_true_r.
Qed.

Lemma get_unknown id m w :
  JS.isNaN id = false ->
  Sql.as_integer id = inr m ->
  (forall j, In j (jobs w) -> Some (Sql.id j) <> m) ->
  thrown (Job.get id) w = Some NotFound.
Proof.
  intros Hnum Hm Hnone. unfold thrown, Job.get. rewrite Hnum.
  rewrite outcome_query_then. simpl. rewrite Hm. simpl.
  rewrite selected_one, id_is_holds_none by assumption. reflexivity.
Qed.

Lemma remove_unknown id m w :
  JS.isNaN id = false ->
  Sql.as_integer id = inr m ->
  (forall j, In j (jobs w) -> Some (Sql.id j) <> m) ->
  thrown (Job.remove id) w = Some NotFound.
Proof.
  intros Hnum Hm Hnone. unfold thrown, Job.remove. rewrite Hnum.
  rewrite outcome_query_then. simpl. rewrite Hm. simpl.
  rewrite selected_one, id_is_holds_none by assumption. reflexivity.
Qed.


(** ** Running an UPDATE *)

Lemma and_then_database {A B} (r : error + A) (k : A -> error + B) :
  database_errors r -> (forall a, database_errors (k a)) ->
  database_errors (Sql.and_then r k).
Proof.
  intros Hr Hk e. destruct r as [e' | a]; simpl.
  - intros [= <-]. now apply Hr.
  - apply Hk.
Qed.

Lemma inr_database {A} (a : A) : database_errors (inr a : error + A).
Proof. intros e H. discriminate. Qed.

Lemma inl_database {A} message : database_errors (inl (DatabaseError message) : error + A).
Proof. intros e [= <-]. reflexivity. Qed.

Lemma all_ok_database {A B} (f : A -> error + B) l :
  (forall a, database_errors (f a)) -> database_errors (Sql.all_ok f l).
Proof.
  intros Hf. induction l as [| a l IH]; simpl; [apply inr_database |].
  apply and_then_database; [apply Hf | intros b].
  apply and_then_database; [apply IH | intros bs; apply inr_database].
Qed.

Lemma param_database params p : database_errors (Sql.param params p).
Proof.
  unfold Sql.param. destruct p as [| i]; [apply inl_database |].
  destruct (nth_error params i); [apply inr_database | apply inl_database].
Qed.

Lemma read_as_database {A} (parse : string -> option A) name v :
  database_errors (Sql.read_as parse name v).
Proof.
  unfold Sql.read_as. destruct (Sql.prepareValue v) as [t |]; [| apply inr_database].
  destruct (parse t); [apply inr_database | apply inl_database].
Qed.

Lemma as_integer_database v : database_errors (Sql.as_integer v).
Proof.
  unfold Sql.as_integer.
  pose proof (read_as_database Sql.parse_integer "integer" v) as H.
  destruct (Sql.read_as _ _ v) as [e | [z |]]; [exact H | | apply inr_database].
  destruct (Sql.int4 z); [apply inr_database | apply inl_database].
Qed.

Lemma not_null_database {A} name (o : option A) : database_errors (Sql.not_null name o).
Proof. destruct o; [apply inr_database | apply inl_database]. Qed.

Ltac solve_database_errors :=
  repeat first
    [ apply inr_database | apply inl_database | apply param_database
    | apply as_integer_database | apply read_as_database | apply not_null_database
    | apply and_then_database; [| intro] ].

Lemma bind_database params c : database_errors (Sql.bind params c).
Proof.
  destruct c; unfold Sql.bind, Sql.as_text, Sql.as_numeric;
    solve_database_errors.
  match goal with
  | |- database_errors (match ?t with Some _ => _ | None => _ end) =>
    destruct t as [pattern |]; [| apply inr_database]
  end.
  destruct (Sql.well_formed_pattern _); solve_database_errors.
Qed.

Lemma bind_assignment_database params a : database_errors (Sql.bind_assignment params a).
Proof.
  destruct a as [name p]. unfold Sql.bind_assignment.
  destruct (Sql.column_of_name name) as [c |]; [destruct c |];
    unfold Sql.as_text, Sql.as_numeric; solve_database_errors.
Qed.

Lemma exec_database q params l : database_errors (Sql.exec q params l).
Proof.
  destruct q as [conds o | setCols idVarIdx | conds]; cbn [Sql.exec].
  - apply and_then_database; [| intro; apply inr_database].
    apply all_ok_database. intro; apply bind_database.
  - apply and_then_database; [| intro].
    { destruct (Sql.parse_set setCols); [apply inr_database | apply inl_database]. }
    apply and_then_database; [| intro].
    { destruct (Sql.parse_placeholder idVarIdx) as [[p [| c rest]] |];
        [apply inr_database | apply inl_database | apply inl_database]. }
    apply and_then_database; [| intro].
    { apply all_ok_database. intro; apply bind_assignment_database. }
    apply and_then_database; [apply bind_database | intro; apply inr_database].
  - apply and_then_database; [| intro; apply inr_database].
    apply all_ok_database. intro; apply bind_database.
Qed.

Lemma param_last params v :
  Sql.param (params ++ [v]) (List.length params + 1) = inr v.
Proof.
  rewrite Nat.add_1_r. cbn [Sql.param].
  rewrite nth_error_app2 by lia. now rewrite Nat.sub_diag.
Qed.

Lemma param_values (data : JS.object) id i k v :
  nth_error data i = Some (k, v) ->
  Sql.param (JS.values data ++ [id]) (1 + i) = inr v.
Proof.
  intros H. cbn [Nat.add Sql.param].
  rewrite nth_error_app1.
  - now rewrite (nth_error_values data i k v H).
  - apply nth_error_Some. now rewrite (nth_error_values data i k v H).
Qed.

(** An UPDATE that runs: its SET clause parsed, its values read at the
    types of their columns, the rows with the given id rewritten and
    returned, the others left as they were. *)
Lemma exec_update setCols params id l rows l' :
  Sql.exec (Sql.UPDATE setCols ("$" ++ Sql.string_of_nat (List.length params + 1)))
    (params ++ [id]) l = inr (rows, l') ->
  exists sets news m,
    Sql.parse_set setCols = Some sets
    /\ Sql.all_ok (Sql.bind_assignment (params ++ [id])) sets = inr news
    /\ Sql.as_integer id = inr m
    /\ rows = map (fun r => Sql.job_row (Sql.assign_all news r))
                (filter (Sql.holds (Sql.id_is m)) l)
    /\ l' = map (fun r => if Sql.holds (Sql.id_is m) r then Sql.assign_all news r else r) l.
Proof.
  cbn [Sql.exec].
  destruct (Sql.parse_set setCols) as [sets |] eqn:Esets; [| discriminate].
  cbn [Sql.or_syntax_error Sql.and_then].
  rewrite <- (append_empty_r (Sql.string_of_nat _)).
  rewrite parse_placeholder_string_of_nat by reflexivity.
  cbn [Sql.and_then].
  destruct (Sql.all_ok _ sets) as [e | news] eqn:Enews; [discriminate |].
  cbn [Sql.and_then Sql.bind]. rewrite param_last. cbn [Sql.and_then].
  destruct (Sql.as_integer id) as [e | m] eqn:Em; [discriminate |].
  cbn [Sql.and_then]. intros [= <- <-].
  exists sets, news, m. repeat split; auto.
Qed.

(** ** What an update leaves alone *)

Lemma column_for_job_fields k :
  column_for [("title", "title"); ("salary", "salary"); ("equity", "equity")] k = k.
Proof.
  unfold column_for, lookup.
  destruct (String.eqb_spec "title" k); [assumption |].
  destruct (String.eqb_spec "salary" k); [assumption |].
  destruct (String.eqb_spec "equity" k); [assumption | reflexivity].
Qed.

Lemma updatable_unquoted k : updatable k -> unquoted k.
Proof.
  intros [-> | [-> | ->]] c Hc; simpl in Hc;
    repeat (destruct Hc as [<- | Hc]; [reflexivity |]); contradiction.
Qed.

Lemma bind_assignment_updatable params name p a :
  updatable name ->
  Sql.bind_assignment params (name, p) = inr a ->
  keeps_identity a.
Proof.
  unfold Sql.bind_assignment.
  intros [-> | [-> | ->]]; simpl;
    destruct (Sql.param params p) as [e | v]; simpl; try discriminate.
  - destruct (Sql.as_text v) as [e | [s |]]; simpl; try discriminate.
    intros [= <-]. exact I.
  - destruct (Sql.as_integer v) as [e | n]; simpl; try discriminate.
    intros [= <-]. exact I.
  - destruct (Sql.as_numeric v) as [e | d]; simpl; try discriminate.
    intros [= <-]. exact I.
Qed.

Lemma all_ok_Forall {E A B} (f : A -> E + B) (P : A -> Prop) (Q : B -> Prop) l bs :
  (forall a b, P a -> f a = inr b -> Q b) ->
  Forall P l -> Sql.all_ok f l = inr bs -> Forall Q bs.
Proof.
  intros HPQ HP. revert bs. induction HP as [| a l Ha Hl IH]; simpl; intros bs H.
  - injection H as <-. constructor.
  - destruct (f a) as [e | b] eqn:Ea; simpl in H; [discriminate |].
    destruct (Sql.all_ok f l) as [e | bs']; simpl in H; [discriminate |].
    injection H as <-. constructor; eauto.
Qed.

Lemma assign_all_keeps news : forall r,
  Forall keeps_identity news ->
  Sql.id (Sql.assign_all news r) = Sql.id r
  /\ Sql.company_handle (Sql.assign_all news r) = Sql.company_handle r.
Proof.
  unfold Sql.assign_all.
  induction news as [| a news IH]; intros r H; simpl; [auto |].
  inversion H as [| ? ? Ha Hnews]; subst.
  destruct (IH (Sql.assign r a) Hnews) as [-> ->].
  destruct a; simpl in *; try contradiction; auto.
Qed.

Lemma Forall2_map_frame {A} (R : A -> A -> Prop) (f : A -> A) l :
  (forall x, R x (f x)) -> Forall2 R l (map f l).
Proof. intros H. induction l; simpl; constructor; auto. Qed.

Lemma calls_update id data w :
  JS.isNaN id = false -> data <> [] ->
  calls (Job.update id data) w
  = [(Sql.UPDATE (String.concat ", " (cols [("title", "title"); ("salary", "salary");
                                            ("equity", "equity")] 1 (JS.keys data)))
        ("$" ++ Sql.string_of_nat (List.length (JS.values data) + 1)),
      (JS.values data ++ [id])%list)].
Proof.
  intros Hnum Hdata. unfold Job.update. rewrite Hnum.
  rewrite sqlForPartialUpdate_nonempty by assumption.
  apply calls_query_then. intros [| row rows] w0; reflexivity.
Qed.

(** C10: when [Job.update(id, data)] succeeds with fields among title,
    salary and equity, the SET clause it sent assigns to the columns of the
    keys of data and to no other, its WHERE clause compares [id] with the
    given id (the last parameter), every row keeps its id and its
    company_handle, a row with another id is left as it was, and the row
    returned is one with the given id. *)
Theorem update_keeps_id_and_company_handle id data w job w' :
  Forall updatable (JS.keys data) ->
  Job.update id data w = (inr job, w') ->
  exists setCols m,
    calls (Job.update id data) w
    = [(Sql.UPDATE setCols ("$" ++ Sql.string_of_nat (List.length data + 1)),
        (JS.values data ++ [id])%list)]
    /\ Sql.parse_set setCols
       = Some (combine (JS.keys data) (seq 1 (List.length data)))
    /\ Sql.param (JS.values data ++ [id]) (List.length data + 1) = inr id
    /\ Sql.as_integer id = inr (Some m)
    /\ Forall2 (fun old new =>
                  Sql.id new = Sql.id old
                  /\ Sql.company_handle new = Sql.company_handle old
                  /\ (Sql.id old <> m -> new = old))
         (jobs w) (jobs w')
    /\ exists old new,
        job = Sql.job_row new /\ In old (jobs w)
        /\ Sql.id old = m /\ Sql.id new = m
        /\ Sql.company_handle new = Sql.company_handle old.
Proof.
  intros Hkeys Hrun.
  assert (Hnum : JS.isNaN id = false).
  { unfold Job.update in Hrun. destruct (JS.isNaN id); [discriminate | reflexivity]. }
  assert (Hdata : data <> []).
  { intros ->. unfold Job.update in Hrun. rewrite Hnum in Hrun. discriminate. }
  assert (Hlen : List.length (JS.values data) = List.length data)
    by (unfold JS.values; apply length_map).
  assert (Hlenk : List.length (JS.keys data) = List.length data)
    by (unfold JS.keys; apply length_map).
  pose proof (calls_update id data w Hnum Hdata) as Hcalls.
  unfold Job.update in Hrun. rewrite Hnum in Hrun.
  rewrite sqlForPartialUpdate_nonempty in Hrun by assumption.
  unfold bind, db.query in Hrun.
  destruct (Sql.exec _ _ _) as [e | [rows l']] eqn:E; [discriminate |].
  destruct rows as [| row rows]; [discriminate |].
  injection Hrun as <- <-.
  apply exec_update in E.
  destruct E as (sets & news & m & Hsets & Hnews & Hm & Hrows & ->).
  rewrite parse_set_cols in Hsets.
  2: { intros Hnil. apply Hdata. destruct data; [reflexivity | discriminate]. }
  2: { eapply Forall_impl; [| exact Hkeys]. intros k Hk.
       rewrite column_for_job_fields. now apply updatable_unquoted. }
  rewrite (map_ext _ (fun k => k) column_for_job_fields), map_id in Hsets.
  injection Hsets as <-.
  assert (Hkeep : Forall keeps_identity news).
  { refine (all_ok_Forall _ (fun a => updatable (fst a)) _ _ _ _ _ Hnews).
    - intros [name p] a Hname. now apply bind_assignment_updatable.
    - apply Forall_forall. intros [name p] Hin. apply in_combine_l in Hin.
      simpl. rewrite Forall_forall in Hkeys. now apply Hkeys. }
  destruct (filter (Sql.holds (Sql.id_is m)) (jobs w)) as [| old olds] eqn:Efilter;
    [discriminate |].
  assert (Hold : In old (jobs w) /\ Sql.holds (Sql.id_is m) old = true).
  { apply filter_In. rewrite Efilter. now left. }
  destruct Hold as [Hin Hholds].
  destruct m as [m |]; [| discriminate].
  simpl in Hholds. apply Z.eqb_eq in Hholds.
  injection Hrows as -> _.
  exists (String.concat ", " (cols [("title", "title"); ("salary", "salary");
                                     ("equity", "equity")] 1 (JS.keys data))), m.
  split; [now rewrite Hcalls, Hlen |].
  split.
  { rewrite parse_set_cols.
    - now rewrite (map_ext _ (fun k => k) column_for_job_fields), map_id, Hlenk.
    - intros Hnil. apply Hdata. destruct data; [reflexivity | discriminate].
    - eapply Forall_impl; [| exact Hkeys]. intros k Hk.
      rewrite column_for_job_fields. now apply updatable_unquoted. }
  split; [rewrite <- Hlen; apply param_last |].
  split; [exact Hm |].
  split.
  - apply Forall2_map_frame. intros r. simpl.
    destruct (Z.eqb_spec (Sql.id r) m) as [Heq | Hne].
    + destruct (assign_all_keeps news r Hkeep) as [-> ->]. repeat split. congruence.
    + repeat split.
  - exists old, (Sql.assign_all news old).
    destruct (assign_all_keeps news old Hkeep) as [Hid Hch].
    repeat split; try assumption. now rewrite Hid.
Qed.

(** The update the tests of [models/job.js] make to J3. *)
Lemma update_keeps_id_and_company_handle_witness :
  outcome (Job.update (num 3) updateData) testJobs = inr (Sql.job_row J3_updated)
  /\ Forall2 (fun old new =>
                Sql.id new = Sql.id old
                /\ Sql.company_handle new = Sql.company_handle old
                /\ (Sql.id old <> 3%Z -> new = old))
       [J1; J2; J3] (jobs (snd (Job.update (num 3) updateData testJobs))).
Proof.
  split; [reflexivity |].
  destruct (update_keeps_id_and_company_handle (num 3) updateData testJobs
              (Sql.job_row J3_updated)
              (snd (Job.update (num 3) updateData testJobs)))
    as (setCols & m & _ & _ & _ & Hm & Hframe & _);
    [keys_ok | reflexivity |].
  injection Hm as <-. exact Hframe.
Defined.

(** ** Identifiers that are not numbers *)







(** * Further properties *)

(** ** What LIKE matches *)

Lemma like_nil s : Sql.like [] s = true <-> s = [].
Proof. destruct s; simpl; split; congruence. Qed.








(** ** The jobs a filtered listing returns *)

















(** ** Reading leaves the table alone; a write that throws does too *)

Lemma jobs_query_select conds o params w :
  jobs (snd (db.query (Sql.SELECT conds o) params w)) = jobs w.
Proof.
  unfold db.query. destruct (Sql.exec _ _ _) as [e | [rows l']] eqn:E; [reflexivity |].
  apply exec_select in E. destruct E as (_ & _ & _ & ->). reflexivity.
Qed.

Lemma table_after_select {A} conds o params (k : list Sql.row -> M A) w :
  (forall rows w', jobs (snd (k rows w')) = jobs w') ->
  table_after (rows <- db.query (Sql.SELECT conds o) params ;; k rows) w = jobs w.
Proof.
  intros Hk. unfold table_after, bind.
  pose proof (jobs_query_select conds o params w) as Hq.
  destruct (db.query _ _ w) as [[e | rows] w']; simpl in *; [exact Hq |].
  now rewrite Hk.
Qed.

Lemma table_after_findAll w : table_after Job.findAll w = jobs w.
Proof. unfold Job.findAll. now apply table_after_select. Qed.

Lemma table_after_findAllFiltered criteria w :
  table_after (Job.findAllFiltered criteria) w = jobs w.
Proof.
  rewrite findAllFiltered_assembled.
  destruct (clauses criteria); [reflexivity |].
  unfold assembled. cbn [fst snd]. now apply table_after_select.
Qed.

Lemma table_after_get id w : table_after (Job.get id) w = jobs w.
Proof.
  unfold Job.get. destruct (JS.isNaN id); [reflexivity |].
  apply table_after_select. intros [| row rows] w'; reflexivity.
Qed.

Lemma table_after_for_of l (body : string -> M unit) w :
  (forall value w', jobs (snd (body value w')) = jobs w') ->
  jobs (snd (routes.for_of l body w)) = jobs w.
Proof.
  intros Hbody. revert w. induction l as [| value l IH]; intros w; [reflexivity |].
  cbn [routes.for_of]. unfold bind.
  pose proof (Hbody value w) as Hv.
  destruct (body value w) as [[e | []] w']; simpl in *; [exact Hv |].
  now rewrite IH.
Qed.

(** X2: [Job.findAll], [Job.findAllFiltered], [Job.get] and the two GET
    handlers never change the table, whatever they are given and whether
    they return or throw. *)
Theorem reading_never_changes_the_table criteria id query w :
  table_after Job.findAll w = jobs w
  /\ table_after (Job.findAllFiltered criteria) w = jobs w
  /\ table_after (Job.get id) w = jobs w
  /\ table_after (routes.get_jobs query) w = jobs w
  /\ table_after (router.get_id id) w = jobs w.
Proof.
  split; [apply table_after_findAll |].
  split; [apply table_after_findAllFiltered |].
  split; [apply table_after_get |]. split.
  - unfold table_after, routes.get_jobs, routes.get_jobs_body.
    destruct (List.length (JS.keys query) =? 0)%nat.
    + pose proof (table_after_findAll w) as H. unfold table_after in H.
      unfold bind. destruct (Job.findAll w) as [[e | rows] w']; exact H.
    + destruct (0 <? List.length (JS.keys query))%nat; [| reflexivity].
      unfold bind at 1.
      match goal with
      | |- context [routes.for_of ?l ?body w] =>
        pose proof (table_after_for_of l body w) as Hfor;
        destruct (routes.for_of l body w) as [[e | []] w1]
      end; simpl in *.
      * apply Hfor. intros value w'. destruct (negb _); reflexivity.
      * pose proof (table_after_findAllFiltered query w1) as H. unfold table_after in H.
        unfold bind. destruct (Job.findAllFiltered query w1) as [[e | rows] w'];
          simpl in *; rewrite H; apply Hfor;
          intros value w''; destruct (negb _); reflexivity.
  - pose proof (table_after_get id w) as H. unfold table_after in *.
    unfold router.get_id, router.handle, bind.
    destruct (Job.get id w) as [[e | job] w']; exact H.
Qed.

Lemma map_if_none {A} (p : A -> bool) (f : A -> A) l :
  filter p l = [] -> map (fun r => if p r then f r else r) l = l.
Proof.
  induction l as [| x l IH]; simpl; [reflexivity |].
  destruct (p x); [discriminate |]. intros H. now rewrite IH.
Qed.

Lemma filter_negb_none {A} (p : A -> bool) l :
  filter p l = [] -> filter (fun r => negb (p r)) l = l.
Proof.
  induction l as [| x l IH]; simpl; [reflexivity |].
  destruct (p x); [discriminate |]. intros H. simpl. now rewrite IH.
Qed.

Lemma exec_delete conds params l rows l' :
  Sql.exec (Sql.DELETE conds) params l = inr (rows, l') ->
  exists bs, Sql.all_ok (Sql.bind params) conds = inr bs
             /\ rows = map (fun r => Sql.id_row (Sql.id r)) (filter (Sql.selected bs) l)
             /\ l' = filter (fun r => negb (Sql.selected bs r)) l.
Proof.
  simpl. destruct (Sql.all_ok (Sql.bind params) conds) as [e | bs]; simpl; [discriminate |].
  intros [= <- <-]. eauto.
Qed.

Lemma failed_update_changes_nothing id data w e :
  outcome (Job.update id data) w = inl e -> table_after (Job.update id data) w = jobs w.
Proof.
  unfold outcome, table_after, Job.update. destruct (JS.isNaN id); [reflexivity |].
  destruct data as [| kv data]; [reflexivity |].
  rewrite sqlForPartialUpdate_nonempty by discriminate.
  unfold bind, db.query.
  destruct (Sql.exec _ _ _) as [e' | [rows l']] eqn:E; [reflexivity |].
  destruct rows as [| row rows]; [| discriminate]. simpl. intros _.
  apply exec_update in E. destruct E as (sets & news & m & _ & _ & _ & Hrows & ->).
  symmetry in Hrows. apply map_eq_nil in Hrows. now apply map_if_none.
Qed.

Lemma failed_remove_changes_nothing id w e :
  outcome (Job.remove id) w = inl e -> table_after (Job.remove id) w = jobs w.
Proof.
  unfold outcome, table_after, Job.remove. destruct (JS.isNaN id); [reflexivity |].
  unfold bind, db.query.
  destruct (Sql.exec _ _ _) as [e' | [rows l']] eqn:E; [reflexivity |].
  destruct rows as [| row rows]; [| discriminate]. simpl. intros _.
  apply exec_delete in E. destruct E as (bs & _ & Hrows & ->).
  symmetry in Hrows. apply map_eq_nil in Hrows. now apply filter_negb_none.
Qed.

(** X3: an update or a removal that throws, whatever the error, has left
    the table as it was. *)
Theorem a_write_that_throws_changes_nothing id data w :
  match outcome (Job.update id data) w with
  | inl _ => table_after (Job.update id data) w = jobs w
  | inr _ => True
  end
  /\ match outcome (Job.remove id) w with
     | inl _ => table_after (Job.remove id) w = jobs w
     | inr _ => True
     end.
Proof.
  split.
  - destruct (outcome (Job.update id data) w) as [e | job] eqn:E; [| exact I].
    now apply (failed_update_changes_nothing id data w e).
  - destruct (outcome (Job.remove id) w) as [e | job] eqn:E; [| exact I].
    now apply (failed_remove_changes_nothing id w e).
Qed.

(** ** Looking a job up, removing it *)

Lemma holds_id n j : Sql.holds (Sql.id_is (Some n)) j = true <-> Sql.id j = n.
Proof. simpl. apply Z.eqb_eq. Qed.

Lemma bind_id id m :
  Sql.as_integer id = inr m -> Sql.bind [id] (Sql.id_eq 1) = inr (Sql.id_is m).
Proof. intros H. cbn [Sql.bind Sql.param nth_error Sql.and_then]. now rewrite H. Qed.

(** With unique ids, the jobs with the id of [j] are [j] alone. *)
Lemma filter_unique_id l j :
  unique_ids l -> In j l ->
  filter (Sql.holds (Sql.id_is (Some (Sql.id j)))) l = [j].
Proof.
  unfold unique_ids. induction l as [| x l IH]; intros Hu Hj; [contradiction |].
  simpl in Hu. inversion Hu as [| ? ? Hx Hl]; subst.
  cbn [filter]. destruct Hj as [-> | Hj].
  - rewrite (proj2 (holds_id (Sql.id j) j) eq_refl). f_equal.
    apply filter_none. intros y Hy.
    destruct (Sql.holds (Sql.id_is (Some (Sql.id j))) y) eqn:E; [| reflexivity].
    apply holds_id in E. exfalso. apply Hx. rewrite <- E. now apply in_map.
  - destruct (Sql.holds (Sql.id_is (Some (Sql.id j))) x) eqn:E.
    + apply holds_id in E. exfalso. apply Hx. rewrite E. now apply in_map.
    + now apply IH.
Qed.

(** X4: when no two jobs share an id, [Job.get] given the id of a stored job
    (in any form [isNaN] accepts and the store reads as that integer)
    returns that job, with one SELECT by id. *)
Theorem get_returns_the_stored_job id j w :
  JS.isNaN id = false ->
  Sql.as_integer id = inr (Some (Sql.id j)) ->
  unique_ids (jobs w) ->
  In j (jobs w) ->
  Job.get id w
  = (inr (Sql.job_row j),
     {| jobs := jobs w;
        queries := (queries w ++ [(Sql.SELECT [Sql.id_eq 1] None, [id])])%list |}).
Proof.
  intros Hnum Hid Hu Hj. unfold Job.get. rewrite Hnum.
  unfold bind, db.query. cbn [Sql.exec Sql.all_ok].
  rewrite (bind_id id _ Hid). cbn [Sql.and_then Sql.order].
  rewrite selected_one, (filter_unique_id _ j Hu Hj). reflexivity.
Qed.

Lemma get_returns_the_stored_job_witness :
  outcome (Job.get (JS.Str "2")) testJobs = inr (Sql.job_row J2).
Proof.
  unfold outcome.
  rewrite (get_returns_the_stored_job (JS.Str "2") J2 testJobs eq_refl eq_refl).
  - reflexivity.
  - unfold unique_ids. simpl.
    repeat (constructor; [simpl; intuition discriminate |]). constructor.
  - simpl. auto.
Defined.

(** X5: [Job.remove], given the id of a stored job, returns that id and
    leaves the table without the jobs of that id and with all the others, in
    their order. *)
Theorem remove_deletes_the_jobs_of_that_id id n w :
  JS.isNaN id = false ->
  Sql.as_integer id = inr (Some n) ->
  (exists j, In j (jobs w) /\ Sql.id j = n) ->
  Job.remove id w
  = (inr (Sql.id_row n),
     {| jobs := filter (fun r => negb (Sql.id r =? n)%Z) (jobs w);
        queries := (queries w ++ [(Sql.DELETE [Sql.id_eq 1], [id])])%list |})
  /\ (forall j, In j (table_after (Job.remove id) w) <-> In j (jobs w) /\ Sql.id j <> n).
Proof.
  intros Hnum Hid (j & Hj & Hjn).
  assert (Hrun : Job.remove id w
    = (inr (Sql.id_row n),
       {| jobs := filter (fun r => negb (Sql.id r =? n)%Z) (jobs w);
          queries := (queries w ++ [(Sql.DELETE [Sql.id_eq 1], [id])])%list |})).
  { unfold Job.remove. rewrite Hnum.
    unfold bind, db.query. cbn [Sql.exec Sql.all_ok].
    rewrite (bind_id id _ Hid). cbn [Sql.and_then].
    rewrite selected_one.
    assert (Hin : In j (filter (Sql.holds (Sql.id_is (Some n))) (jobs w))).
    { apply filter_In. split; [exact Hj | now apply holds_id]. }
    destruct (filter (Sql.holds (Sql.id_is (Some n))) (jobs w)) as [| x found] eqn:E;
      [contradiction |].
    assert (Hx : Sql.id x = n).
    { apply holds_id. apply (proj1 (filter_In _ x (jobs w))). rewrite E. now left. }
    cbn [map Job.first_or]. unfold ret. rewrite Hx. f_equal. f_equal.
    apply filter_ext. intros r. unfold Sql.selected. simpl. now rewrite andb_true_r. }
  split; [exact Hrun |].
  intros j'. unfold table_after. rewrite Hrun. cbn [snd jobs].
  rewrite filter_In, negb_true_iff, Z.eqb_neq. tauto.
Qed.

Lemma remove_deletes_the_jobs_of_that_id_witness :
  Job.remove (JS.Str "2") testJobs
  = (inr (Sql.id_row 2),
     {| jobs := [J1; J3];
        queries := [(Sql.DELETE [Sql.id_eq 1], [JS.Str "2"])] |}).
Proof.
  refine (eq_trans (proj1 (remove_deletes_the_jobs_of_that_id (JS.Str "2") 2 testJobs
                             eq_refl eq_refl _)) eq_refl).
  exists J2. simpl. auto.
Defined.

(** X6: once [Job.remove] has succeeded, the same id is not found any more:
    [Job.get] and a second [Job.remove] throw a NotFoundError. *)
Theorem a_removed_job_is_not_found id (row : Sql.row) w w' :
  Job.remove id w = (inr row, w') ->
  thrown (Job.get id) w' = Some NotFound
  /\ thrown (Job.remove id) w' = Some NotFound
  /\ thrown (_ <- Job.remove id ;; Job.get id) w = Some NotFound.
Proof.
  intros Hrun.
  assert (Hnum : JS.isNaN id = false).
  { unfold Job.remove in Hrun. destruct (JS.isNaN id); [discriminate | reflexivity]. }
  assert (Hgone : exists m, Sql.as_integer id = inr m
                            /\ forall j, In j (jobs w') -> Some (Sql.id j) <> m).
  { unfold Job.remove in Hrun. rewrite Hnum in Hrun.
    unfold bind, db.query in Hrun.
    destruct (Sql.exec _ _ _) as [e | [rows l']] eqn:E; [discriminate |].
    destruct rows as [| r rows]; [discriminate |]. injection Hrun as _ <-.
    apply exec_delete in E. destruct E as (bs & Hbs & _ & ->).
    cbn [Sql.all_ok Sql.bind Sql.param nth_error Sql.and_then] in Hbs.
    destruct (Sql.as_integer id) as [e | m]; [discriminate |].
    injection Hbs as <-. exists m. split; [reflexivity |].
    intros j Hj Hm. cbn [jobs] in Hj. apply filter_In in Hj. destruct Hj as (_ & Hsel).
    unfold Sql.selected in Hsel. simpl in Hsel. subst m. simpl in Hsel.
    rewrite Z.eqb_refl in Hsel. discriminate. }
  destruct Hgone as (m & Hm & Hgone).
  pose proof (get_unknown id m w' Hnum Hm Hgone) as Hget.
  split; [exact Hget |]. split; [now apply (remove_unknown id m) |].
  unfold thrown, outcome, bind in *. now rewrite Hrun.
Qed.

Lemma a_removed_job_is_not_found_witness :
  thrown (_ <- Job.remove (num 2) ;; Job.get (num 2)) testJobs = Some NotFound.
Proof.
  exact (proj2 (proj2 (a_removed_job_is_not_found (num 2) (Sql.id_row 2) testJobs
                         (snd (Job.remove (num 2) testJobs)) eq_refl))).
Defined.

(** ** What a successful update does *)

Lemma all_ok_Forall2 {E A B} (f : A -> E + B) l bs :
  Sql.all_ok f l = inr bs -> Forall2 (fun a b => f a = inr b) l bs.
Proof.
  revert bs. induction l as [| a l IH]; simpl; intros bs H.
  - injection H as <-. constructor.
  - destruct (f a) as [e | b] eqn:Ea; simpl in H; [discriminate |].
    destruct (Sql.all_ok f l) as [e | bs']; simpl in H; [discriminate |].
    injection H as <-. constructor; auto.
Qed.

Lemma Forall2_In_l {A B} (R : A -> B -> Prop) l l' x :
  Forall2 R l l' -> In x l -> exists y, In y l' /\ R x y.
Proof.
  induction 1 as [| a b l l' Hab Hl IH]; intros Hx; [contradiction |].
  destruct Hx as [-> | Hx].
  - exists b. split; [now left | assumption].
  - destruct (IH Hx) as (y & Hy & Hr). exists y. split; [now right | assumption].
Qed.

Lemma Forall2_In_r {A B} (R : A -> B -> Prop) l l' y :
  Forall2 R l l' -> In y l' -> exists x, In x l /\ R x y.
Proof.
  induction 1 as [| a b l l' Hab Hl IH]; intros Hy; [contradiction |].
  destruct Hy as [-> | Hy].
  - exists a. split; [now left | assumption].
  - destruct (IH Hy) as (x & Hx & Hr). exists x. split; [now right | assumption].
Qed.

(** What [Job.update] has done when it returns. *)
Lemma update_returns id data w job w' :
  Forall updatable (JS.keys data) ->
  Job.update id data w = (inr job, w') ->
  exists news m old olds,
    Sql.as_integer id = inr (Some m)
    /\ Sql.all_ok (Sql.bind_assignment (JS.values data ++ [id]))
         (combine (JS.keys data) (seq 1 (List.length (JS.keys data)))) = inr news
    /\ filter (Sql.holds (Sql.id_is (Some m))) (jobs w) = old :: olds
    /\ job = Sql.job_row (Sql.assign_all news old)
    /\ jobs w'
       = map (fun r => if Sql.holds (Sql.id_is (Some m)) r
                       then Sql.assign_all news r else r) (jobs w).
Proof.
  intros Hkeys Hrun.
  assert (Hnum : JS.isNaN id = false).
  { unfold Job.update in Hrun. destruct (JS.isNaN id); [discriminate | reflexivity]. }
  assert (Hdata : data <> []).
  { intros ->. unfold Job.update in Hrun. rewrite Hnum in Hrun. discriminate. }
  unfold Job.update in Hrun. rewrite Hnum in Hrun.
  rewrite sqlForPartialUpdate_nonempty in Hrun by assumption.
  unfold bind, db.query in Hrun.
  destruct (Sql.exec _ _ _) as [e | [rows l']] eqn:E; [discriminate |].
  destruct rows as [| row rows]; [discriminate |].
  injection Hrun as <- <-.
  apply exec_update in E.
  destruct E as (sets & news & m & Hsets & Hnews & Hm & Hrows & ->).
  rewrite parse_set_cols in Hsets.
  2: { intros Hnil. apply Hdata. destruct data; [reflexivity | discriminate]. }
  2: { eapply Forall_impl; [| exact Hkeys]. intros k Hk.
       rewrite column_for_job_fields. now apply updatable_unquoted. }
  rewrite (map_ext _ (fun k => k) column_for_job_fields), map_id in Hsets.
  injection Hsets as <-.
  destruct (filter (Sql.holds (Sql.id_is m)) (jobs w)) as [| old olds] eqn:Efilter;
    [discriminate |].
  destruct m as [m |];
    [| assert (Hin : In old (filter (Sql.holds (Sql.id_is None)) (jobs w)))
         by (rewrite Efilter; now left);
       apply filter_In in Hin; destruct Hin as [_ Hin]; discriminate Hin].
  injection Hrows as -> _.
  exists news, m, old, olds. repeat split; auto.
Qed.

Lemma column_of_name_inv name c :
  Sql.column_of_name name = Some c -> name = Sql.column_name c.
Proof.
  unfold Sql.column_of_name.
  repeat match goal with
         | |- context [String.eqb name ?s] => destruct (String.eqb_spec name s)
         end; intros [= <-]; assumption.
Qed.

Lemma bind_assignment_target params name p a :
  Sql.bind_assignment params (name, p) = inr a -> name = Sql.column_name (target a).
Proof.
  unfold Sql.bind_assignment.
  destruct (Sql.column_of_name name) as [c |] eqn:Ec; [| discriminate].
  apply column_of_name_inv in Ec.
  destruct (Sql.param params p) as [e | v]; [discriminate |]. cbn [Sql.and_then].
  destruct c; cbn [Sql.column_name] in Ec.
  - destruct (Sql.as_integer v) as [e | [z |]]; simpl; try discriminate.
    now intros [= <-].
  - destruct (Sql.as_text v) as [e | [s |]]; simpl; try discriminate.
    now intros [= <-].
  - destruct (Sql.as_integer v) as [e | n]; simpl; try discriminate.
    now intros [= <-].
  - destruct (Sql.as_numeric v) as [e | d]; simpl; try discriminate.
    now intros [= <-].
  - destruct (Sql.as_text v) as [e | [s |]]; simpl; try discriminate.
    now intros [= <-].
Qed.

Lemma assign_same_at c r a : target a <> c -> same_at c r (Sql.assign r a).
Proof. destruct a, c; simpl; intros H; congruence. Qed.

Lemma same_at_trans c j1 j2 j3 : same_at c j1 j2 -> same_at c j2 j3 -> same_at c j1 j3.
Proof. destruct c; simpl; congruence. Qed.

Lemma same_at_refl c j : same_at c j j.
Proof. destruct c; reflexivity. Qed.

Lemma assign_all_same_at c news : forall r,
  (forall a, In a news -> target a <> c) -> same_at c r (Sql.assign_all news r).
Proof.
  unfold Sql.assign_all. induction news as [| a news IH]; intros r H; simpl.
  - apply same_at_refl.
  - eapply same_at_trans; [apply assign_same_at; apply H; now left |].
    apply IH. intros b Hb. apply H. now right.
Qed.

Lemma column_name_inj c c' : Sql.column_name c = Sql.column_name c' -> c = c'.
Proof. destruct c, c'; simpl; intros H; try reflexivity; discriminate. Qed.

Lemma news_target_keys params keys idx news a :
  Sql.all_ok (Sql.bind_assignment params) (combine keys (seq idx (List.length keys)))
  = inr news ->
  In a news -> In (Sql.column_name (target a)) keys.
Proof.
  intros Hnews Ha. apply all_ok_Forall2 in Hnews.
  destruct (Forall2_In_r _ _ _ a Hnews Ha) as ([name p] & Hin & Hbind).
  apply bind_assignment_target in Hbind. rewrite <- Hbind.
  now apply in_combine_l in Hin.
Qed.

(** X7: a successful update with fields among title, salary and equity
    leaves every column that is not a key of data as it was, in every
    row. *)
Theorem update_keeps_the_columns_not_named id data w job w' c :
  Forall updatable (JS.keys data) ->
  Job.update id data w = (inr job, w') ->
  ~ In (Sql.column_name c) (JS.keys data) ->
  Forall2 (same_at c) (jobs w) (jobs w').
Proof.
  intros Hkeys Hrun Hc.
  destruct (update_returns id data w job w' Hkeys Hrun)
    as (news & m & old & olds & _ & Hnews & _ & _ & ->).
  apply Forall2_map_frame. intros r.
  destruct (Sql.holds (Sql.id_is (Some m)) r); [| apply same_at_refl].
  apply assign_all_same_at. intros a Ha Ht. apply Hc. rewrite <- Ht.
  now apply (news_target_keys _ _ _ _ a Hnews).
Qed.

Lemma update_keeps_the_columns_not_named_witness :
  Forall2 (same_at Sql.Salary) [J1; J2; J3]
    (table_after (Job.update (num 3) [("title", JS.Str "New"); ("equity", JS.null)])
       testJobs).
Proof.
  refine (update_keeps_the_columns_not_named (num 3)
            [("title", JS.Str "New"); ("equity", JS.null)] testJobs
            (Sql.job_row {| Sql.id := 3; Sql.title := "New"; Sql.salary := Some 300000%Z;
                            Sql.equity := None; Sql.company_handle := "c2" |})
            (snd (Job.update (num 3) [("title", JS.Str "New"); ("equity", JS.null)]
                    testJobs))
            Sql.Salary _ eq_refl _).
  - keys_ok.
  - simpl. intuition discriminate.
Defined.

Lemma assigned_assign r a : assigned a (Sql.assign r a).
Proof. destruct a; reflexivity. Qed.

Lemma assigned_same_at a j j' : assigned a j -> same_at (target a) j j' -> assigned a j'.
Proof. destruct a; simpl; congruence. Qed.

Lemma assign_all_assigned news : forall r a,
  NoDup (map target news) -> In a news -> assigned a (Sql.assign_all news r).
Proof.
  unfold Sql.assign_all. induction news as [| a0 news IH]; intros r a Hnd Ha;
    [contradiction |].
  simpl in Hnd. inversion Hnd as [| ? ? Hnot Hnd']; subst. simpl.
  destruct Ha as [-> | Ha].
  - eapply assigned_same_at; [apply assigned_assign |].
    apply (assign_all_same_at (target a) news). intros b Hb Heq.
    apply Hnot. rewrite <- Heq. now apply in_map.
  - now apply IH.
Qed.

(** The assignments made for a payload, entry by entry. *)
Lemma news_of_data params : forall (data : JS.object) idx news,
  (forall i k v, nth_error data i = Some (k, v) -> Sql.param params (idx + i) = inr v) ->
  Sql.all_ok (Sql.bind_assignment params)
    (combine (JS.keys data) (seq idx (List.length (JS.keys data)))) = inr news ->
  Forall2 (fun kv a => exists p, Sql.param params p = inr (snd kv)
                                 /\ Sql.bind_assignment params (fst kv, p) = inr a)
    data news.
Proof.
  induction data as [| [k v] data IH]; intros idx news Hparam Hnews.
  - injection Hnews as <-. constructor.
  - cbn [JS.keys map List.length seq combine Sql.all_ok fst] in Hnews.
    destruct (Sql.bind_assignment params (k, idx)) as [e | a] eqn:Ea;
      [discriminate |].
    cbn [Sql.and_then] in Hnews.
    change (map fst data) with (JS.keys data) in Hnews.
    destruct (Sql.all_ok _ _) as [e | news'] eqn:En; [discriminate |].
    injection Hnews as <-. constructor.
    + exists idx. split; [| exact Ea].
      rewrite <- (Nat.add_0_r idx). now apply (Hparam 0 k v).
    + apply (IH (S idx)); [| exact En].
      intros i k' v' Hi. rewrite Nat.add_succ_l, <- Nat.add_succ_r.
      now apply (Hparam (S i) k' v').
Qed.

Lemma bind_assignment_stored params k p v a j :
  updatable k ->
  Sql.param params p = inr v ->
  Sql.bind_assignment params (k, p) = inr a ->
  assigned a j ->
  stored_as k v j.
Proof.
  unfold Sql.bind_assignment, stored_as.
  intros [-> | [-> | ->]] Hp; simpl; rewrite Hp; cbn [Sql.and_then].
  - destruct (Sql.as_text v) as [e | [s |]]; simpl; try discriminate.
    intros [= <-] Hj. simpl in Hj. subst s.
    repeat split; intros; (reflexivity || discriminate).
  - destruct (Sql.as_integer v) as [e | n]; simpl; try discriminate.
    intros [= <-] Hj. simpl in Hj. subst n.
    repeat split; intros; (reflexivity || discriminate).
  - destruct (Sql.as_numeric v) as [e | d]; simpl; try discriminate.
    intros [= <-] Hj. simpl in Hj. subst d.
    repeat split; intros; (reflexivity || discriminate).
Qed.

(** X8: a successful update with distinct fields among title, salary and
    equity returns a row in which each field of data has the value the
    store reads from it: the text for title, the integer or NULL for salary,
    the decimal or NULL for equity. *)
Theorem update_stores_every_field id data w job w' :
  Forall updatable (JS.keys data) ->
  NoDup (JS.keys data) ->
  Job.update id data w = (inr (Sql.job_row job), w') ->
  In job (jobs w')
  /\ forall k v, In (k, v) data -> stored_as k v job.
Proof.
  intros Hkeys Hnd Hrun.
  destruct (update_returns id data w _ w' Hkeys Hrun)
    as (news & m & old & olds & _ & Hnews & Hfilter & Hjob & Hjobs).
  injection Hjob as ->.
  assert (Hold : In old (jobs w) /\ Sql.holds (Sql.id_is (Some m)) old = true).
  { apply filter_In. rewrite Hfilter. now left. }
  destruct Hold as [Hin Hholds]. split.
  - rewrite Hjobs. apply in_map_iff. exists old. now rewrite Hholds.
  - intros k v Hkv.
    pose proof (news_of_data (JS.values data ++ [id]) data 1 news
                  (fun i k v => param_values data id i k v) Hnews) as Hall.
    destruct (Forall2_In_l _ _ _ (k, v) Hall Hkv) as (a & Ha & p & Hp & Hbind).
    cbn [fst snd] in *.
    assert (Hk : updatable k).
    { rewrite Forall_forall in Hkeys. apply Hkeys.
      unfold JS.keys. now apply (in_map fst _ (k, v)). }
    apply (bind_assignment_stored _ k p v a _ Hk Hp Hbind).
    apply assign_all_assigned; [| exact Ha].
    assert (Hnames : JS.keys data = map Sql.column_name (map target news)).
    { clear -Hall. induction Hall as [| [k' v'] a' data' news' (p' & _ & Hb) _ IH];
        [reflexivity |].
      simpl. rewrite <- IH. f_equal. now apply bind_assignment_target in Hb. }
    rewrite Hnames in Hnd. now apply NoDup_map_inv in Hnd.
Qed.

Lemma update_stores_every_field_witness :
  Sql.as_text (JS.Str "New") = inr (Some (Sql.title J3_updated))
  /\ Sql.as_integer (num 150000) = inr (Sql.salary J3_updated)
  /\ Sql.as_numeric (JS.Str "0.9") = inr (Sql.equity J3_updated).
Proof.
  destruct (update_stores_every_field (num 3) updateData testJobs J3_updated
              (snd (Job.update (num 3) updateData testJobs)))
    as (_ & H); [keys_ok | | reflexivity |].
  - unfold updateData. simpl.
    repeat (constructor; [simpl; intuition discriminate |]). constructor.
  - split; [apply (H "title"); [simpl; auto | reflexivity] |].
    split; [apply (H "salary"); [simpl; auto | reflexivity] |].
    apply (H "equity"); [simpl; auto | reflexivity].
Defined.

Lemma filter_map_same {A} (p : A -> bool) (f : A -> A) l :
  (forall x, p (f x) = p x) -> filter p (map f l) = map f (filter p l).
Proof.
  intros H. induction l as [| x l IH]; simpl; [reflexivity |].
  rewrite H. destruct (p x); simpl; now rewrite IH.
Qed.

(** X9: after a successful update with fields among title, salary and
    equity, [Job.get] with the same id returns the row the update
    returned. *)
Theorem get_after_update_returns_the_updated_row id data w job w' :
  Forall updatable (JS.keys data) ->
  Job.update id data w = (inr job, w') ->
  outcome (Job.get id) w' = inr job
  /\ outcome (_ <- Job.update id data ;; Job.get id) w = inr job.
Proof.
  intros Hkeys Hrun.
  assert (Hget : outcome (Job.get id) w' = inr job).
  { destruct (update_returns id data w job w' Hkeys Hrun)
      as (news & m & old & olds & Hm & Hnews & Hfilter & -> & Hjobs).
    assert (Hnum : JS.isNaN id = false).
    { unfold Job.update in Hrun. destruct (JS.isNaN id); [discriminate | reflexivity]. }
    assert (Hkeep : Forall keeps_identity news).
    { refine (all_ok_Forall _ (fun a => updatable (fst a)) _ _ _ _ _ Hnews).
      - intros [name p] a Hname. now apply bind_assignment_updatable.
      - apply Forall_forall. intros [name p] Hin. apply in_combine_l in Hin.
        simpl. rewrite Forall_forall in Hkeys. now apply Hkeys. }
    unfold Job.get. rewrite Hnum. rewrite outcome_query_then.
    cbn [Sql.exec Sql.all_ok]. rewrite (bind_id id _ Hm). cbn [Sql.and_then Sql.order].
    rewrite selected_one, Hjobs, filter_map_same.
    - rewrite Hfilter. cbn [map].
      assert (Hold : Sql.holds (Sql.id_is (Some m)) old = true).
      { apply (proj1 (filter_In _ old (jobs w))). rewrite Hfilter. now left. }
      now rewrite Hold.
    - intros r. destruct (Sql.holds (Sql.id_is (Some m)) r) eqn:Er; [| exact Er].
      simpl. destruct (assign_all_keeps news r Hkeep) as [-> _]. exact Er. }
  split; [exact Hget |].
  unfold outcome, bind in *. now rewrite Hrun.
Qed.

Lemma get_after_update_returns_the_updated_row_witness :
  outcome (_ <- Job.update (num 3) updateData ;; Job.get (num 3)) testJobs
  = inr (Sql.job_row J3_updated).
Proof.
  refine (proj2 (get_after_update_returns_the_updated_row (num 3) updateData testJobs
                   (Sql.job_row J3_updated)
                   (snd (Job.update (num 3) updateData testJobs)) _ eq_refl)).
  keys_ok.
Defined.

(** ** The handlers *)

Lemma includes_false fields key :
  routes.includes fields key = false <-> ~ In key fields.
Proof.
  unfold routes.includes. induction fields as [| f fields IH]; simpl.
  - split; [tauto | reflexivity].
  - rewrite orb_false_iff, IH.
    destruct (String.eqb_spec key f) as [-> | Hne]; split.
    + intros [H _]. discriminate.
    + intros H. exfalso. apply H. now left.
    + intros [_ H] [Heq | Hin]; [congruence | contradiction].
    + intros H. split; [reflexivity |]. tauto.
Qed.

(** The loop over the keys throws at the first key outside [fields] and
    touches nothing. *)
Lemma for_of_fields fields e l w :
  routes.for_of l
    (fun value => if negb (routes.includes fields value) then throw e else ret tt) w
  = (if forallb (routes.includes fields) l then inr tt else inl e, w).
Proof.
  induction l as [| key l IH]; [reflexivity |].
  cbn [routes.for_of forallb]. unfold bind at 1.
  destruct (routes.includes fields key); simpl; [exact IH | reflexivity].
Qed.

Lemma forallb_includes_false fields l key :
  In key l -> ~ In key fields -> forallb (routes.includes fields) l = false.
Proof.
  intros Hin Hout. destruct (forallb (routes.includes fields) l) eqn:E; [| reflexivity].
  rewrite forallb_forall in E. specialize (E key Hin).
  apply includes_false in Hout. congruence.
Qed.

Lemma allowed_fields key : allowed key <-> In key ["title"; "minSalary"; "hasEquity"].
Proof. unfold allowed. simpl. intuition congruence. Qed.

Lemma updatable_fields key : updatable key <-> In key ["title"; "salary"; "equity"].
Proof. unfold updatable. simpl. intuition congruence. Qed.

(** X10: a single key outside title, minSalary and hasEquity in the query
    string makes [GET /jobs] answer with the 400 error, whatever the other
    keys and values, without a query. *)
Theorem get_jobs_rejects_an_unknown_key query key w :
  In key (JS.keys query) ->
  ~ allowed key ->
  routes.get_jobs query w
  = (routes.next (ExpressError "You may only filter on title, salary and equity" 400), w).
Proof.
  intros Hin Hout. unfold routes.get_jobs, routes.get_jobs_body.
  destruct query as [| kv query]; [contradiction |].
  cbn [JS.keys map List.length Nat.eqb Nat.ltb Nat.leb].
  unfold bind at 1. change (fst kv :: map fst query) with (JS.keys (kv :: query)).
  rewrite for_of_fields.
  rewrite (forallb_includes_false _ _ key Hin); [reflexivity |].
  now rewrite <- allowed_fields.
Qed.

Lemma get_jobs_rejects_an_unknown_key_witness :
  routes.get_jobs [("title", JS.Str "j"); ("salary", JS.Str "1")] testJobs
  = (routes.next (ExpressError "You may only filter on title, salary and equity" 400),
     testJobs).
Proof.
  refine (get_jobs_rejects_an_unknown_key
            [("title", JS.Str "j"); ("salary", JS.Str "1")] "salary" testJobs _ _).
  - simpl. auto.
  - unfold allowed. intuition discriminate.
Defined.

(** X11: a single field outside title, salary and equity in the body makes
    [PATCH /jobs/:id] answer with the 400 error before the body is validated
    and before the id is looked at, without a query. *)
Theorem patch_rejects_a_field_outside_the_list validate id body key w :
  In key (JS.keys body) ->
  ~ updatable key ->
  router.patch_id validate id body w
  = (router.next (ExpressError "You may only update the title, salary or equity" 400), w).
Proof.
  intros Hin Hout. unfold router.patch_id, router.handle.
  unfold bind at 1. rewrite for_of_fields.
  rewrite (forallb_includes_false _ _ key Hin); [reflexivity |].
  now rewrite <- updatable_fields.
Qed.

Lemma patch_rejects_a_field_outside_the_list_witness :
  router.patch_id no_errors (JS.Str "nope") [("title", JS.Str "t"); ("id", num 9)] testJobs
  = (router.next (ExpressError "You may only update the title, salary or equity" 400),
     testJobs).
Proof.
  refine (patch_rejects_a_field_outside_the_list no_errors (JS.Str "nope")
            [("title", JS.Str "t"); ("id", num 9)] "id" testJobs _ _).
  - simpl. auto.
  - unfold updatable. intuition discriminate.
Defined.

Lemma Forall2_same {A} (R : A -> A -> Prop) l : (forall x, R x x) -> Forall2 R l l.
Proof. intros H. induction l; constructor; auto. Qed.

(** X12: whatever the request, [PATCH /jobs/:id] leaves every row its id and
    its company handle, and adds or removes no row. *)
Theorem patch_never_changes_id_or_company_handle validate id body w :
  Forall2 (fun old new =>
             Sql.id new = Sql.id old
             /\ Sql.company_handle new = Sql.company_handle old)
    (jobs w) (table_after (router.patch_id validate id body) w).
Proof.
  unfold table_after, router.patch_id, router.handle.
  unfold bind at 1. rewrite for_of_fields.
  destruct (forallb (routes.includes ["title"; "salary"; "equity"]) (JS.keys body))
    eqn:Ekeys; [| apply Forall2_same; auto].
  assert (Hkeys : Forall updatable (JS.keys body)).
  { apply Forall_forall. intros k Hk. apply updatable_fields.
    rewrite forallb_forall in Ekeys. specialize (Ekeys k Hk).
    destruct (in_dec string_dec k ["title"; "salary"; "equity"]) as [Hin | Hout];
      [exact Hin |].
    apply includes_false in Hout. unfold routes.includes in *. congruence. }
  destruct (validate body); [| apply Forall2_same; auto].
  unfold bind.
  destruct (Job.update id body w) as [[e | job] w'] eqn:Erun; cbn beta iota; cbn [snd ret].
  - pose proof (failed_update_changes_nothing id body w e) as H.
    unfold outcome, table_after in H. rewrite Erun in H. simpl in H.
    rewrite (H eq_refl). apply Forall2_same. auto.
  - destruct (update_returns id body w job w' Hkeys Erun)
      as (news & m & old & olds & _ & Hnews & _ & _ & ->).
    assert (Hkeep : Forall keeps_identity news).
    { refine (all_ok_Forall _ (fun a => updatable (fst a)) _ _ _ _ _ Hnews).
      - intros [name p] a Hname. now apply bind_assignment_updatable.
      - apply Forall_forall. intros [name p] Hin. apply in_combine_l in Hin.
        simpl. rewrite Forall_forall in Hkeys. now apply Hkeys. }
    apply Forall2_map_frame. intros r.
    destruct (Sql.holds (Sql.id_is (Some m)) r); [| auto].
    apply (assign_all_keeps news r Hkeep).
Qed.

(** X13: [DELETE /jobs/:id] with the id of a stored job answers with that id,
    and a [GET /jobs/:id] after it passes a NotFoundError on. *)
Theorem delete_then_get_id id n w :
  JS.isNaN id = false ->
  Sql.as_integer id = inr (Some n) ->
  (exists j, In j (jobs w) /\ Sql.id j = n) ->
  outcome (router.delete_id id) w = router.json_deleted n
  /\ exists message,
      outcome (router.get_id id) (snd (router.delete_id id w))
      = router.next (NotFoundError message).
Proof.
  intros Hnum Hid Hj.
  assert (Hrun : exists w', Job.remove id w = (inr (Sql.id_row n), w')
                            /\ forall j, In j (jobs w') -> Sql.id j <> n).
  { unfold Job.remove. rewrite Hnum.
    unfold bind, db.query. cbn [Sql.exec Sql.all_ok].
    rewrite (bind_id id _ Hid). cbn [Sql.and_then]. rewrite selected_one.
    destruct Hj as (j & Hj & Hjn).
    assert (Hin : In j (filter (Sql.holds (Sql.id_is (Some n))) (jobs w))).
    { apply filter_In. split; [exact Hj | now apply holds_id]. }
    destruct (filter (Sql.holds (Sql.id_is (Some n))) (jobs w)) as [| x found] eqn:E;
      [contradiction |].
    assert (Hx : Sql.id x = n).
    { apply holds_id. apply (proj1 (filter_In _ x (jobs w))). rewrite E. now left. }
    cbn [map Job.first_or]. unfold ret. rewrite Hx. eexists. split; [reflexivity |].
    cbn [jobs]. intros j' Hj'. apply filter_In in Hj'. destruct Hj' as (_ & Hsel).
    unfold Sql.selected in Hsel. simpl in Hsel. rewrite andb_true_r in Hsel.
    apply negb_true_iff, Z.eqb_neq in Hsel. exact Hsel. }
  destruct Hrun as (w' & Hrun & Hgone).
  unfold outcome, router.delete_id, router.get_id, router.handle, bind.
  rewrite Hrun. cbn [fst snd router.row_id ret]. split; [reflexivity |].
  unfold Job.get. rewrite Hnum. unfold bind, db.query. cbn [Sql.exec Sql.all_ok].
  rewrite (bind_id id _ Hid). cbn [Sql.and_then Sql.order].
  rewrite selected_one, id_is_holds_none; [eexists; reflexivity |].
  intros j Hj' [= Heq]. now apply (Hgone j).
Qed.

Lemma delete_then_get_id_witness :
  outcome (router.delete_id (JS.Str "2")) testJobs = router.json_deleted 2
  /\ exists message,
      outcome (router.get_id (JS.Str "2")) (snd (router.delete_id (JS.Str "2") testJobs))
      = router.next (NotFoundError message).
Proof.
  apply (delete_then_get_id (JS.Str "2") 2 testJobs eq_refl eq_refl).
  exists J2. simpl. auto.
Defined.

(** ** Creating a job *)

Lemma as_text_prepare v : Sql.as_text v = inr (Sql.prepareValue v).
Proof. unfold Sql.as_text, Sql.read_as. destruct (Sql.prepareValue v); reflexivity. Qed.

Lemma select_title_pair title company l :
  Create.select_title [title; company] l
  = inr (map Sql.title
           (filter (Create.same_title_and_company (Sql.prepareValue title)
                      (Sql.prepareValue company)) l)).
Proof.
  unfold Create.select_title. cbn [Sql.param nth_error Sql.and_then].
  now rewrite !as_text_prepare.
Qed.

Lemma same_title_and_company_true t c j :
  Create.same_title_and_company (Some t) (Some c) j = true
  <-> Sql.title j = t /\ Sql.company_handle j = c.
Proof.
  unfold Create.same_title_and_company.
  rewrite andb_true_iff, !String.eqb_eq. tauto.
Qed.

(** [Job.create] step by step. *)
Lemma create_steps accepts generated data w :
  Create.create accepts generated data w
  = match filter (Create.same_title_and_company
                    (Sql.prepareValue (JS.get data "title"))
                    (Sql.prepareValue (JS.get data "companyHandle"))) (jobs w) with
    | _ :: _ =>
      (inl (BadRequestError ("Duplicate job title: " ++ JS.ToString (JS.get data "title"))),
       w)
    | [] =>
      match Create.insert_job accepts generated
              [JS.get data "title"; JS.get data "salary"; JS.get data "equity";
               JS.get data "companyHandle"] (jobs w) with
      | inl e => (inl e, w)
      | inr (rows, jobs') => (inr (hd_error rows), {| jobs := jobs'; queries := queries w |})
      end
    end.
Proof.
  unfold Create.create, bind at 1, Create.query_select_title.
  rewrite select_title_pair.
  destruct (filter _ (jobs w)) as [| j found]; [| reflexivity].
  cbn [map]. unfold bind, Create.query_insert.
  destruct (Create.insert_job _ _ _) as [e | [rows jobs']]; reflexivity.
Qed.

Lemma insert_job_steps accepts generated title salary equity company l :
  Create.insert_job accepts generated [title; salary; equity; company] l
  = match Sql.prepareValue title, Sql.as_integer salary, Sql.as_numeric equity,
          Sql.prepareValue company with
    | None, _, _, _ => inl (DatabaseError "null value in column title")
    | Some _, inl e, _, _ => inl e
    | Some _, inr _, inl e, _ => inl e
    | Some _, inr _, inr _, None => inl (DatabaseError "null value in column company_handle")
    | Some t, inr s, inr e, Some c =>
      let job := {| Sql.id := generated; Sql.title := t; Sql.salary := s;
                    Sql.equity := e; Sql.company_handle := c |} in
      if accepts l job then inr ([job], (l ++ [job])%list)
      else inl (DatabaseError "new row for relation jobs violates a constraint")
    end.
Proof.
  unfold Create.insert_job. cbn [Sql.param nth_error Sql.and_then].
  rewrite !as_text_prepare. cbn [Sql.and_then].
  destruct (Sql.prepareValue title); [| reflexivity]. cbn [Sql.not_null Sql.and_then].
  destruct (Sql.as_integer salary); [reflexivity |]. cbn [Sql.and_then].
  destruct (Sql.as_numeric equity); [reflexivity |]. cbn [Sql.and_then].
  destruct (Sql.prepareValue company); reflexivity.
Qed.

(** X14: when a job with the same title at the same company is stored,
    [Job.create] throws the BadRequestError "Duplicate job title: ..." and
    inserts nothing. *)
Theorem create_refuses_a_duplicate accepts generated data w j :
  In j (jobs w) ->
  Sql.prepareValue (JS.get data "title") = Some (Sql.title j) ->
  Sql.prepareValue (JS.get data "companyHandle") = Some (Sql.company_handle j) ->
  outcome (Create.create accepts generated data) w
  = inl (BadRequestError ("Duplicate job title: " ++ Sql.title j))
  /\ table_after (Create.create accepts generated data) w = jobs w.
Proof.
  intros Hj Ht Hc. unfold outcome, table_after. rewrite create_steps, Ht, Hc.
  assert (Hin : In j (filter (Create.same_title_and_company (Some (Sql.title j))
                                (Some (Sql.company_handle j))) (jobs w))).
  { apply filter_In. split; [exact Hj |]. now apply same_title_and_company_true. }
  destruct (filter _ (jobs w)); [contradiction |].
  assert (Hs : JS.ToString (JS.get data "title") = Sql.title j).
  { destruct (JS.get data "title"); simpl in Ht; try discriminate;
      injection Ht as <-; reflexivity. }
  rewrite Hs. split; reflexivity.
Qed.

Lemma create_refuses_a_duplicate_witness :
  outcome (Create.create of_c1_or_c2 4
             [("title", JS.Str "J1"); ("salary", num 1); ("equity", JS.null);
              ("companyHandle", JS.Str "c1")]) testJobs
  = inl (BadRequestError "Duplicate job title: J1").
Proof.
  refine (proj1 (create_refuses_a_duplicate of_c1_or_c2 4
            [("title", JS.Str "J1"); ("salary", num 1); ("equity", JS.null);
             ("companyHandle", JS.Str "c1")] testJobs J1 _ eq_refl eq_refl)).
  simpl. auto.
Defined.

(** X15: when no stored job has the title at the company, the store can
    read the salary and the equity, and the constraints of the schema let
    the new row in, [Job.create] returns the new job, with the generated id
    and the four values as read, and the table is the old one with the new
    job at its end. *)
Theorem create_appends_the_new_job accepts generated data w t s e c :
  Sql.prepareValue (JS.get data "title") = Some t ->
  Sql.as_integer (JS.get data "salary") = inr s ->
  Sql.as_numeric (JS.get data "equity") = inr e ->
  Sql.prepareValue (JS.get data "companyHandle") = Some c ->
  (forall j, In j (jobs w) -> ~ (Sql.title j = t /\ Sql.company_handle j = c)) ->
  accepts (jobs w) {| Sql.id := generated; Sql.title := t; Sql.salary := s;
                      Sql.equity := e; Sql.company_handle := c |} = true ->
  outcome (Create.create accepts generated data) w
  = inr (Some {| Sql.id := generated; Sql.title := t; Sql.salary := s;
                 Sql.equity := e; Sql.company_handle := c |})
  /\ table_after (Create.create accepts generated data) w
     = (jobs w ++ [{| Sql.id := generated; Sql.title := t; Sql.salary := s;
                      Sql.equity := e; Sql.company_handle := c |}])%list.
Proof.
  intros Ht Hs He Hc Hnew Hlet. unfold outcome, table_after.
  rewrite create_steps, Ht, Hc.
  rewrite filter_none.
  - rewrite insert_job_steps, Ht, Hs, He, Hc. cbn zeta. rewrite Hlet.
    split; reflexivity.
  - intros j Hj. destruct (Create.same_title_and_company (Some t) (Some c) j) eqn:E;
      [| reflexivity].
    apply same_title_and_company_true in E. exfalso. now apply (Hnew j).
Qed.

Lemma create_appends_the_new_job_witness :
  outcome (Create.create of_c1_or_c2 4 newJob) testJobs = inr (Some new_row)
  /\ table_after (Create.create of_c1_or_c2 4 newJob) testJobs = [J1; J2; J3; new_row].
Proof.
  refine (create_appends_the_new_job of_c1_or_c2 4 newJob testJobs "new" (Some 100000%Z)
            (dec 0 0) "c1" eq_refl eq_refl eq_refl eq_refl _ eq_refl).
  intros j [<- | [<- | [<- | []]]] [H _]; discriminate H.
Defined.

(** What [Job.create] has done when it returns. *)
Lemma create_returns accepts generated data w result w' :
  Create.create accepts generated data w = (inr result, w') ->
  exists job,
    result = Some job
    /\ w' = {| jobs := (jobs w ++ [job])%list; queries := queries w |}
    /\ Sql.id job = generated
    /\ Sql.prepareValue (JS.get data "title") = Some (Sql.title job)
    /\ Sql.prepareValue (JS.get data "companyHandle") = Some (Sql.company_handle job)
    /\ Sql.as_integer (JS.get data "salary") = inr (Sql.salary job)
    /\ Sql.as_numeric (JS.get data "equity") = inr (Sql.equity job)
    /\ forall j, In j (jobs w) ->
                 ~ (Sql.title j = Sql.title job
                    /\ Sql.company_handle j = Sql.company_handle job).
Proof.
  rewrite create_steps.
  destruct (filter _ (jobs w)) as [| x found] eqn:Efilter; [| discriminate].
  rewrite insert_job_steps.
  destruct (Sql.prepareValue (JS.get data "title")) as [t |]; [| discriminate].
  destruct (Sql.as_integer (JS.get data "salary")) as [err | s]; [discriminate |].
  destruct (Sql.as_numeric (JS.get data "equity")) as [err | e]; [discriminate |].
  destruct (Sql.prepareValue (JS.get data "companyHandle")) as [c |]; [| discriminate].
  cbn zeta. destruct (accepts _ _); [| discriminate].
  intros [= <- <-]. eexists. repeat split; try reflexivity.
  cbn [Sql.title Sql.company_handle]. intros j Hj Hsame.
  apply same_title_and_company_true in Hsame.
  assert (Hin : In j []) by (rewrite <- Efilter; apply filter_In; auto).
  contradiction.
Qed.

(** X16: what [Job.create] has created it refuses to create again: after a
    successful call, a call with the same data, whatever id the store would
    generate, throws the duplicate error and inserts nothing. *)
Theorem create_is_refused_the_second_time accepts accepts' generated generated' data w
  result w' :
  Create.create accepts generated data w = (inr result, w') ->
  (exists message,
      outcome (Create.create accepts' generated' data) w' = inl (BadRequestError message))
  /\ table_after (Create.create accepts' generated' data) w' = jobs w'.
Proof.
  intros Hrun.
  destruct (create_returns _ _ _ _ _ _ Hrun) as (job & _ & -> & _ & Ht & Hc & _).
  unfold outcome, table_after. rewrite create_steps, Ht, Hc. cbn [jobs].
  assert (Hin : In job (filter (Create.same_title_and_company (Some (Sql.title job))
                                  (Some (Sql.company_handle job))) (jobs w ++ [job]))).
  { apply filter_In. split; [apply in_or_app; right; now left |].
    now apply same_title_and_company_true. }
  destruct (filter _ (jobs w ++ [job])); [contradiction |].
  split; [eexists |]; reflexivity.
Qed.

Lemma create_is_refused_the_second_time_witness :
  exists message,
    outcome (Create.create of_c1_or_c2 5 newJob) (snd (Create.create of_c1_or_c2 4 newJob testJobs))
    = inl (BadRequestError message).
Proof.
  exact (proj1 (create_is_refused_the_second_time of_c1_or_c2 of_c1_or_c2 4 5 newJob
                  testJobs (Some new_row)
                  (snd (Create.create of_c1_or_c2 4 newJob testJobs)) eq_refl)).
Defined.

Lemma NoDup_snoc {A} (l : list A) x : NoDup l -> ~ In x l -> NoDup (l ++ [x]).
Proof.
  intros Hl Hx. apply (Permutation_NoDup (Permutation_cons_append l x)).
  now constructor.
Qed.

Lemma create_adds added generated w :
  (added = []
   \/ exists job, added = [job] /\ Sql.id job = generated
                  /\ forall j, In j (jobs w) ->
                               ~ (Sql.title j = Sql.title job
                                  /\ Sql.company_handle j = Sql.company_handle job)) ->
  List.length added <= 1
  /\ (unique_titles (jobs w) -> unique_titles (jobs w ++ added)).
Proof.
  intros [-> | (job & -> & _ & Hnew)].
  - split; [simpl; lia |]. now rewrite app_nil_r.
  - split; [simpl; lia |]. unfold unique_titles. intros Hu.
    rewrite map_app. apply NoDup_snoc; [exact Hu |].
    intros Hin. apply in_map_iff in Hin. destruct Hin as (j & Heq & Hj).
    injection Heq as Ht Hc. now apply (Hnew j).
Qed.

Lemma create_table accepts generated data w :
  exists added,
    table_after (Create.create accepts generated data) w = (jobs w ++ added)%list
    /\ (added = []
        \/ exists job, added = [job] /\ Sql.id job = generated
                       /\ forall j, In j (jobs w) ->
                                    ~ (Sql.title j = Sql.title job
                                       /\ Sql.company_handle j = Sql.company_handle job)).
Proof.
  unfold table_after.
  destruct (Create.create accepts generated data w) as [[e | result] w'] eqn:Erun.
  - exists []. split; [| now left]. rewrite app_nil_r.
    rewrite create_steps in Erun.
    destruct (filter _ (jobs w)); [| now injection Erun as _ <-].
    destruct (Create.insert_job _ _ _) as [e' | [rows jobs']];
      [now injection Erun as _ <- | discriminate].
  - destruct (create_returns _ _ _ _ _ _ Erun) as (job & _ & -> & Hid & _ & _ & _ & _ & Hnew).
    exists [job]. split; [reflexivity |]. right. eauto.
Qed.

(** X17: [Job.create] and [POST /jobs] never alter or remove a stored job:
    the table afterwards is the old one followed by at most one job, which
    has the generated id; and if no two stored jobs had the same title at
    the same company, none have afterwards. *)
Theorem create_only_adds_and_keeps_titles_unique validate accepts generated data w :
  (exists added,
      table_after (Create.create accepts generated data) w = (jobs w ++ added)%list
      /\ List.length added <= 1
      /\ Forall (fun job => Sql.id job = generated) added
      /\ (unique_titles (jobs w) -> unique_titles (jobs w ++ added)))
  /\ (exists added,
         table_after (router.post validate accepts generated data) w = (jobs w ++ added)%list
         /\ List.length added <= 1
         /\ Forall (fun job => Sql.id job = generated) added
         /\ (unique_titles (jobs w) -> unique_titles (jobs w ++ added))).
Proof.
  assert (Hcreate : exists added,
      table_after (Create.create accepts generated data) w = (jobs w ++ added)%list
      /\ List.length added <= 1
      /\ Forall (fun job => Sql.id job = generated) added
      /\ (unique_titles (jobs w) -> unique_titles (jobs w ++ added))).
  { destruct (create_table accepts generated data w) as (added & Htable & Hadded).
    exists added. split; [exact Htable |].
    destruct (create_adds added generated w Hadded) as (Hlen & Hu).
    repeat split; try assumption.
    destruct Hadded as [-> | (job & -> & Hid & _)]; repeat constructor. exact Hid. }
  split; [exact Hcreate |].
  unfold table_after, router.post, router.handle.
  destruct (validate data).
  - destruct Hcreate as (added & Htable & Hrest). exists added.
    split; [| exact Hrest]. unfold table_after in Htable. unfold bind, ret.
    destruct (Create.create accepts generated data w) as [[e | result] w']; exact Htable.
  - exists []. rewrite app_nil_r. repeat split; auto.
Qed.

(** X18: the job [Job.create] returns is the one [Job.get] finds under the
    generated id, when that id was not in use. *)
Theorem get_after_create_returns_the_new_job accepts generated data id w job w' :
  Create.create accepts generated data w = (inr (Some job), w') ->
  (forall j, In j (jobs w) -> Sql.id j <> generated) ->
  JS.isNaN id = false ->
  Sql.as_integer id = inr (Some generated) ->
  outcome (Job.get id) w' = inr (Sql.job_row job).
Proof.
  intros Hrun Hfresh Hnum Hid.
  destruct (create_returns _ _ _ _ _ _ Hrun) as (job' & [= <-] & -> & Hg & _).
  unfold Job.get. rewrite Hnum, outcome_query_then.
  cbn [Sql.exec Sql.all_ok jobs]. rewrite (bind_id id _ Hid).
  cbn [Sql.and_then Sql.order]. rewrite selected_one, filter_app.
  rewrite id_is_holds_none by (intros j Hj [= Heq]; now apply (Hfresh j)).
  cbn [filter app]. rewrite (proj2 (holds_id generated job) Hg). reflexivity.
Qed.

Lemma get_after_create_returns_the_new_job_witness :
  outcome (Job.get (JS.Str "4")) (snd (Create.create of_c1_or_c2 4 newJob testJobs))
  = inr (Sql.job_row new_row).
Proof.
  refine (get_after_create_returns_the_new_job of_c1_or_c2 4 newJob (JS.Str "4") testJobs
            new_row
            (snd (Create.create of_c1_or_c2 4 newJob testJobs)) eq_refl _ eq_refl eq_refl).
  intros j [<- | [<- | [<- | []]]]; discriminate.
Defined.

(** ** Searching for a title with an upper-case letter *)

(** X19: the searched title is sent as typed while the stored titles are
    lowercased, so a search whose title has an upper-case ASCII letter
    returns no job, whatever the table holds and whatever the other
    criteria. *)
Theorem an_upper_case_letter_in_the_title_finds_no_job criteria w t rows :
  JS.get criteria "title" = JS.Str t ->
  (exists c, In c (list_ascii_of_string t) /\ is_upper c = true) ->
  outcome (Job.findAllFiltered criteria) w = inr (Some rows) ->
  rows = [].
Proof. apply upper_case_title_finds_nothing. Qed.

Lemma an_upper_case_letter_in_the_title_finds_no_job_witness :
  outcome (Job.findAllFiltered [("title", JS.Str "J")]) testJobs = inr (Some []).
Proof.
  refine (f_equal (fun rows => inr (Some rows))
            (an_upper_case_letter_in_the_title_finds_no_job
               [("title", JS.Str "J")] testJobs "J"
               (map Sql.job_row
                  (Sql.order Job.by_salary_desc
                     (filter (Sql.selected [Sql.title_matches (Some "%J%")])
                        (jobs testJobs))))
               eq_refl _ eq_refl)).
  exists "J"%char. split; [simpl; auto | reflexivity].
Defined.
